(** * clevo-fancontrol: a shallow embedding of [clevo-fancontrol.c]

    The daemon polls the embedded controller (EC) of a Clevo laptop for the
    CPU and GPU temperatures, keeps a short history of them, maps the highest
    temperature of the history to a fan duty and writes that duty to the EC
    when it changed.

    - C [int] values are integers [Z]; no computation of the program leaves
      the range of [int].
    - C [float] values are IEEE 754 binary32 numbers: the Standard Library's
      executable specification [SpecFloat] at precision 24 and maximal
      exponent 128. Every operation rounds its result to binary32, to
      nearest with ties to even, as the code a compiler emits for x86-64
      does.
    - Port I/O, sleeping and printing are effects: a function of the program
      is a function from the hardware state to its result, the new hardware
      state and the events it caused, or to [None] where C leaves the
      behaviour undefined.
    - The endless loop of [main] is its body, [cycle], run any number of
      times. *)

From Stdlib Require Import ZArith Bool Lia.
From Stdlib Require Import Floats.SpecFloat.
From stdpp Require Import base list.

Local Open Scope Z_scope.

(** ** binary32 arithmetic *)

Module F32.

Definition prec : Z := 24.
Definition emax : Z := 128.

Definition float : Type := spec_float.

(** [(float) n] for an [int] n. *)
Definition of_int (n : Z) : float := binary_normalize prec emax n 0 false.

Definition add : float -> float -> float := SFadd prec emax.
Definition sub : float -> float -> float := SFsub prec emax.
Definition mul : float -> float -> float := SFmul prec emax.
Definition div : float -> float -> float := SFdiv prec emax.
Definition ltb : float -> float -> bool := SFltb.

(** The literal [0.2f]: the binary32 number nearest to 1/5. *)
Definition lit_0_2 : float := div (of_int 1) (of_int 5).

Definition int_min : Z := -2147483648.
Definition int_max : Z := 2147483647.

(** [(int) f]: the fractional part is discarded; undefined when the
    integral part is no [int]. *)
Definition to_int (f : float) : option Z :=
  match f with
  | S754_zero _ => Some 0
  | S754_finite s m e =>
      let q := match e with
               | Zneg p => Z.shiftr (Zpos m) (Zpos p)
               | _ => Z.shiftl (Zpos m) e
               end in
      let v := cond_Zopp s q in
      if (int_min <=? v) && (v <=? int_max) then Some v else None
  | S754_infinity _ | S754_nan => None
  end.

End F32.

(** ** Constants of the program *)

Definition EC_SC : Z := 0x66.
Definition EC_DATA : Z := 0x62.

Definition IBF : Z := 1.
Definition OBF : Z := 0.
Definition EC_SC_READ_CMD : Z := 0x80.

Definition EC_REG_CPU_TEMP : Z := 0x07.
Definition EC_REG_GPU_TEMP : Z := 0xCD.
Definition EC_REG_FAN_DUTY : Z := 0xCE.
Definition EC_REG_FAN_RPMS_HI : Z := 0xD0.
Definition EC_REG_FAN_RPMS_LO : Z := 0xD1.

Definition MIN_DUTY : F32.float := F32.of_int 10.
Definition MIN_DUTY_TEMP : F32.float := F32.of_int 40.
Definition MAX_DUTY : F32.float := F32.of_int 100.
Definition MAX_DUTY_TEMP : F32.float := F32.of_int 70.

(** The macros a build may override, and the order in which the compiler
    evaluates the arguments of a call, which C leaves open. *)
Record config : Type := Config {
  RATE : Z;
  TEMP_HISTORY_DURATION : Z;
  PRINT_STATE : bool;
  args_right_to_left : bool
}.

Definition TEMP_HISTORY_LEN (c : config) : Z := RATE c * TEMP_HISTORY_DURATION c.

(** The values of the source file, and those of the Makefile
    ([-DPRINT_STATE=0]). *)
Definition source_config : config :=
  {| RATE := 5; TEMP_HISTORY_DURATION := 5; PRINT_STATE := true;
     args_right_to_left := false |}.

Definition make_config : config :=
  {| RATE := 5; TEMP_HISTORY_DURATION := 5; PRINT_STATE := false;
     args_right_to_left := true |}.

(** ** Pure functions *)

Definition max (a b : Z) : Z := if a >? b then a else b.

(** [a / b] on [int]: the quotient truncated toward zero; undefined for a
    zero divisor and for a quotient that is no [int]. *)
Definition int_div (a b : Z) : option Z :=
  if (b =? 0) || ((a =? F32.int_min) && (b =? -1)) then None else Some (a ÷ b).

(** The first lines of [temp_to_duty]: the temperature scaled to the range
    of the curve. *)
Definition temp_scale (temp : Z) : F32.float :=
  F32.div (F32.sub (F32.of_int temp) MIN_DUTY_TEMP)
          (F32.sub MAX_DUTY_TEMP MIN_DUTY_TEMP).

(** [if (x < 0) { x = 0; } if (x > 1) { x = 1; }] *)
Definition temp_clamp (x : F32.float) : F32.float :=
  let x := if F32.ltb x (F32.of_int 0) then F32.of_int 0 else x in
  if F32.ltb (F32.of_int 1) x then F32.of_int 1 else x.

(** From [x] to the returned duty. *)
Definition duty_curve (x : F32.float) : option Z :=
  let linear_component := F32.lit_0_2 in
  let y := F32.div (F32.mul x (F32.add x linear_component))
                   (F32.add (F32.of_int 1) linear_component) in
  F32.to_int (F32.add (F32.mul y (F32.sub MAX_DUTY MIN_DUTY)) MIN_DUTY).

Definition temp_to_duty (temp : Z) : option Z :=
  duty_curve (temp_clamp (temp_scale temp)).

(** The arithmetic of [ec_query_fan_rpms] on the two bytes read. *)
Definition fan_rpms_of_raw (raw_rpm_hi raw_rpm_lo : Z) : option Z :=
  let raw_rpm := Z.shiftl raw_rpm_hi 8 + raw_rpm_lo in
  if raw_rpm >? 0 then int_div 2156220 raw_rpm else Some 0.

(** The arithmetic of [ec_query_fan_duty] on the byte read. *)
Definition fan_duty_of_raw (raw_duty : Z) : option Z :=
  F32.to_int (F32.mul (F32.div (F32.of_int raw_duty) (F32.of_int 255))
                      (F32.of_int 100)).

(** The two [if]s of [ec_write_fan_duty]. *)
Definition sanitize_duty (duty_percentage : Z) : Z :=
  let d := if duty_percentage <? 10 then 10 else duty_percentage in
  if d >? 100 then 100 else d.

(** [v_i] of [ec_write_fan_duty], from the sanitized percentage. *)
Definition duty_to_raw (duty_percentage : Z) : option Z :=
  F32.to_int (F32.mul (F32.div (F32.of_int duty_percentage) (F32.of_int 100))
                      (F32.of_int 255)).

(** ** The temperature history

    [temp_history] is an array of [TEMP_HISTORY_LEN] ints and
    [temp_history_pos] the index of the slot written next. *)

(** [temp_history[temp_history_pos++] = temp_cur;
     temp_history_pos %= TEMP_HISTORY_LEN;]
    An index outside of the array is undefined behaviour. *)
Definition history_push (len : Z) (temp_history : list Z) (temp_history_pos : Z)
    (temp_cur : Z) : option (list Z * Z) :=
  if (0 <=? temp_history_pos) && (temp_history_pos <? Z.of_nat (length temp_history))
     && negb (len =? 0)
  then Some (<[Z.to_nat temp_history_pos := temp_cur]> temp_history,
             Z.rem (temp_history_pos + 1) len)
  else None.

(** [int temp_max = 0; for (...) { temp_max = max(temp_max, temp_history[i]); }] *)
Definition history_max (temp_history : list Z) : Z :=
  fold_left max temp_history 0.

(** The history after one push per sample, as the cycles of the loop do
    them. *)
Fixpoint history_push_all (len : Z) (temp_history : list Z) (temp_history_pos : Z)
    (samples : list Z) : option (list Z * Z) :=
  match samples with
  | [] => Some (temp_history, temp_history_pos)
  | temp_cur :: rest =>
      match history_push len temp_history temp_history_pos temp_cur with
      | Some (h, pos) => history_push_all len h pos rest
      | None => None
      end
  end.

(** ** Effects *)

Inductive event : Type :=
  | EvInb (port data : Z)                             (* [inb(port)] gave [data] *)
  | EvOutb (value port : Z)                           (* [outb(value, port)] *)
  | EvUsleep (usec : Z)                               (* [usleep(usec)] *)
  | EvWaitError (port data flag value : Z)            (* the line [wait_ec error ...] *)
  | EvState (temp_cur temp_max rpms duty new_duty : Z) (* the line [temp=...] *)
  | EvNoAccess.                                       (* the line [could not get access ...] *)

(** The hardware, and the kernel between it and the program. [inb] gives an
    [unsigned char], [outb] takes one. *)
Class Ports (HW : Type) : Type := {
  port_inb : Z -> HW -> Z * HW;
  port_outb : Z -> Z -> HW -> HW;
  port_usleep : Z -> HW -> HW;
  port_ioperm : Z -> HW -> Z * HW
}.

Definition uint8 (n : Z) : Z := n mod 256.

Definition M (HW A : Type) : Type := HW -> option (A * HW * list event).

Definition ret {HW A} (a : A) : M HW A := fun s => Some (a, s, []).

Definition bind {HW A B} (m : M HW A) (f : A -> M HW B) : M HW B :=
  fun s =>
    match m s with
    | Some (a, s1, t1) =>
        match f a s1 with
        | Some (b, s2, t2) => Some (b, s2, t1 ++ t2)
        | None => None
        end
    | None => None
    end.

Definition undefined {HW A} : M HW A := fun _ => None.

Definition lift {HW A} (o : option A) : M HW A :=
  match o with
  | Some a => ret a
  | None => undefined
  end.

Declare Scope io_scope.
Delimit Scope io_scope with io.
Notation "x <- m ;; k" := (bind m (fun x => k))
  (at level 100, m at next level, right associativity) : io_scope.
Notation "m ;; k" := (bind m (fun _ => k))
  (at level 100, right associativity) : io_scope.
Local Open Scope io_scope.

Section Program.

Context {HW : Type} {ports : Ports HW}.
Variable cfg : config.

Definition emit (e : event) : M HW unit := fun s => Some (tt, s, [e]).

Definition inb (port : Z) : M HW Z :=
  fun s => let '(v, s1) := port_inb port s in
           Some (uint8 v, s1, [EvInb port (uint8 v)]).

Definition outb (value port : Z) : M HW unit :=
  fun s => Some (tt, port_outb (uint8 value) port s, [EvOutb (uint8 value) port]).

Definition usleep (usec : Z) : M HW unit :=
  fun s => Some (tt, port_usleep usec s, [EvUsleep usec]).

Definition ioperm (from : Z) : M HW Z :=
  fun s => let '(r, s1) := port_ioperm from s in Some (r, s1, []).

(** The [while] of [ec_io_wait], from the test of its condition on; it
    gives the last [data] and [i]. [fuel] bounds the number of times the
    condition is tested. *)
Fixpoint ec_io_wait_loop (fuel : nat) (port flag value data i : Z)
    : M HW (Z * Z) :=
  match fuel with
  | O => undefined
  | S fuel' =>
      if negb (Z.land (Z.shiftr data flag) 1 =? value) then
        (* [i++ < 100] *)
        if i <? 100 then
          usleep 1000 ;;
          data' <- inb port ;;
          ec_io_wait_loop fuel' port flag value data' (i + 1)
        else ret (data, i + 1)
      else ret (data, i)
  end.

(** [i] starts at 0 and the body is left once [i] is 100: the condition
    is tested at most 101 times. *)
Definition ec_io_wait_fuel : nat := 101.

Definition ec_io_wait (port flag value : Z) : M HW unit :=
  data <- inb port ;;
  r <- ec_io_wait_loop ec_io_wait_fuel port flag value data 0 ;;
  let '(data, i) := r in
  if i >=? 100 then emit (EvWaitError port data flag value) else ret tt.

Definition ec_io_read (port : Z) : M HW Z :=
  ec_io_wait EC_SC IBF 0 ;;
  outb EC_SC_READ_CMD EC_SC ;;
  ec_io_wait EC_SC IBF 0 ;;
  outb port EC_DATA ;;
  ec_io_wait EC_SC OBF 1 ;;
  inb EC_DATA.

Definition ec_io_do (cmd port value : Z) : M HW unit :=
  ec_io_wait EC_SC IBF 0 ;;
  outb cmd EC_SC ;;
  ec_io_wait EC_SC IBF 0 ;;
  outb port EC_DATA ;;
  ec_io_wait EC_SC IBF 0 ;;
  outb (uint8 value) EC_DATA ;;
  ec_io_wait EC_SC IBF 0.

Definition ec_query_cpu_temp : M HW Z := ec_io_read EC_REG_CPU_TEMP.

Definition ec_query_gpu_temp : M HW Z := ec_io_read EC_REG_GPU_TEMP.

Definition ec_query_fan_duty : M HW Z :=
  raw_duty <- ec_io_read EC_REG_FAN_DUTY ;;
  lift (fan_duty_of_raw raw_duty).

Definition ec_query_fan_rpms : M HW Z :=
  raw_rpm_hi <- ec_io_read EC_REG_FAN_RPMS_HI ;;
  raw_rpm_lo <- ec_io_read EC_REG_FAN_RPMS_LO ;;
  lift (fan_rpms_of_raw raw_rpm_hi raw_rpm_lo).

Definition ec_write_fan_duty (duty_percentage : Z) : M HW unit :=
  let duty_percentage := sanitize_duty duty_percentage in
  v_i <- lift (duty_to_raw duty_percentage) ;;
  ec_io_do 0x99 0x01 v_i.

(** Two calls that are arguments of one call. *)
Definition args2 {A B} (a : M HW A) (b : M HW B) : M HW (A * B) :=
  if args_right_to_left cfg
  then (y <- b ;; x <- a ;; ret (x, y))
  else (x <- a ;; y <- b ;; ret (x, y)).

(** The variables of [main] that live across the cycles of its loop. *)
Record loop_state : Type := LoopState {
  temp_history : list Z;
  temp_history_pos : Z;
  prev_duty : Z
}.

(** The [printf] under [#if PRINT_STATE]. *)
Definition print_state (temp_cur temp_max new_duty : Z) : M HW unit :=
  if PRINT_STATE cfg then
    r <- args2 ec_query_fan_rpms ec_query_fan_duty ;;
    emit (EvState temp_cur temp_max (fst r) (snd r) new_duty)
  else ret tt.

(** The body of [while (1)]. *)
Definition cycle (st : loop_state) : M HW loop_state :=
  t <- args2 ec_query_cpu_temp ec_query_gpu_temp ;;
  let temp_cur := max (fst t) (snd t) in
  h <- lift (history_push (TEMP_HISTORY_LEN cfg) (temp_history st)
                          (temp_history_pos st) temp_cur) ;;
  let temp_max := history_max (fst h) in
  new_duty <- lift (temp_to_duty temp_max) ;;
  print_state temp_cur temp_max new_duty ;;
  prev <- (if negb (new_duty =? prev_duty st)
           then ec_write_fan_duty new_duty ;; ret new_duty
           else ret (prev_duty st)) ;;
  period <- lift (int_div (1000 * 1000) (RATE cfg)) ;;
  usleep period ;;
  ret {| temp_history := fst h; temp_history_pos := snd h; prev_duty := prev |}.

Fixpoint cycles (n : nat) (st : loop_state) : M HW loop_state :=
  match n with
  | O => ret st
  | S n' => st' <- cycle st ;; cycles n' st'
  end.

(** The state in which [main] enters its loop. *)
Definition initial_state : loop_state :=
  {| temp_history := replicate (Z.to_nat (TEMP_HISTORY_LEN cfg)) 0;
     temp_history_pos := 0;
     prev_duty := -1 |}.

(** [main] up to its loop: [inl 1] is [return 1]. *)
Definition main_start : M HW (Z + loop_state) :=
  r1 <- ioperm EC_DATA ;;
  if negb (r1 =? 0) then emit EvNoAccess ;; ret (inl 1)
  else
    r2 <- ioperm EC_SC ;;
    if negb (r2 =? 0) then emit EvNoAccess ;; ret (inl 1)
    else ret (inr initial_state).

(** [main], its loop cut after [n] cycles. *)
Definition main (n : nat) : M HW (Z + loop_state) :=
  r <- main_start ;;
  match r with
  | inl code => ret (inl code)
  | inr st => st' <- cycles n st ;; ret (inr st')
  end.

End Program.

(** The array has its length and the index is inside of it. *)
Definition wf_state (cfg : config) (st : loop_state) : Prop :=
  length (temp_history st) = Z.to_nat (TEMP_HISTORY_LEN cfg)
  /\ 0 <= temp_history_pos st < TEMP_HISTORY_LEN cfg.

(** ** Observations on a run *)

Definition count_events (f : event -> bool) (t : list event) : nat :=
  length (List.filter f t).

Definition is_duty_write (e : event) : bool :=
  match e with
  | EvOutb value port => (port =? EC_SC) && (value =? 0x99)
  | _ => false
  end.

Definition is_inb (port : Z) (e : event) : bool :=
  match e with
  | EvInb p _ => p =? port
  | _ => false
  end.

Definition is_usleep (usec : Z) (e : event) : bool :=
  match e with
  | EvUsleep u => u =? usec
  | _ => false
  end.

Definition is_wait_error (e : event) : bool :=
  match e with
  | EvWaitError _ _ _ _ => true
  | _ => false
  end.

(** The number of fan-duty commands, [ec_io_do(0x99, ...)], among events. *)
Definition duty_writes (t : list event) : nat := count_events is_duty_write t.

(** The number of reads of a port. *)
Definition polls (port : Z) (t : list event) : nat := count_events (is_inb port) t.

(** The bytes written, with their ports, in order. *)
Definition outbs (t : list event) : list (Z * Z) :=
  omap (fun e => match e with EvOutb v p => Some (v, p) | _ => None end) t.

(** [flag_of data flag]: the bit that [ec_io_wait] compares with [value]. *)
Definition flag_of (data flag : Z) : Z := Z.land (Z.shiftr data flag) 1.

(** ** Two simulated controllers

    Both have no state. The status port of the first always reads 0: the
    input buffer is free and the output buffer never fills. That of the
    second always reads 1: the input buffer is free and the output buffer
    full; every register of it reads [reg]. *)

Definition stuck_ports : Ports unit :=
  {| port_inb := fun _ s => (0, s);
     port_outb := fun _ _ s => s;
     port_usleep := fun _ s => s;
     port_ioperm := fun _ s => (0, s) |}.

Definition ready_ports (reg : Z) : Ports unit :=
  {| port_inb := fun port s => (if port =? EC_SC then 1 else reg, s);
     port_outb := fun _ _ s => s;
     port_usleep := fun _ s => s;
     port_ioperm := fun _ s => (0, s) |}.

(** ** Predicates of the proofs *)

(** [m] runs to its end from every state of the hardware, and [Q] holds
    of its result and its events. *)
Definition returns {HW A} (m : M HW A) (Q : A -> list event -> Prop) : Prop :=
  forall s, exists a s' t, m s = Some (a, s', t) /\ Q a t.

(** What a cycle begun in [st] leaves: the state [st'] and the events [t]. *)
Definition cycle_post (cfg : config) (st st' : loop_state) (t : list event) : Prop :=
  wf_state cfg st' /\
  exists temp_cur new_duty,
    0 <= temp_cur < 256
    /\ history_push (TEMP_HISTORY_LEN cfg) (temp_history st) (temp_history_pos st) temp_cur
       = Some (temp_history st', temp_history_pos st')
    /\ temp_to_duty (history_max (temp_history st')) = Some new_duty
    /\ prev_duty st' = new_duty
    /\ duty_writes t = (if new_duty =? prev_duty st then 0%nat else 1%nat)
    /\ (new_duty <> prev_duty st ->
        exists o raw,
          duty_to_raw new_duty = Some raw
          /\ outbs t = o ++ [(0x99, EC_SC); (0x01, EC_DATA); (raw, EC_DATA)]).

(** The events of [ec_io_wait] between its first read and its end when
    the loop reads [ds]. *)
Definition repolls (port : Z) (ds : list Z) : list event :=
  List.flat_map (fun d => [EvUsleep 1000; EvInb port d]) ds.

(** The events of an [ec_io_wait] that gives up: [d0] is read first, then
    [ds]. *)
Definition timeout_trace (port flag value d0 : Z) (ds : list Z) : list event :=
  [EvInb port d0] ++ repolls port ds
  ++ [EvWaitError port (List.last ds d0) flag value].

(** [m * 2^e], scaled by [2^149] to an integer. *)
Definition scaled (m e : Z) : Z := m * 2 ^ (e + 149).

(** [lb c f]: the binary32 number [f] is positive, possibly infinite, and
    at least [c / 2^149]. *)
Definition lb (c : Z) (f : F32.float) : Prop :=
  match f with
  | S754_infinity false => True
  | S754_finite false m e => -149 <= e /\ Z.pos m < 2 ^ 24 /\ c <= scaled (Z.pos m) e
  | _ => False
  end.

(** [neg f]: the sign bit of [f] is set, and [f] is a number. *)
Definition neg (f : F32.float) : Prop :=
  match f with
  | S754_zero true | S754_infinity true | S754_finite true _ _ => True
  | _ => False
  end.

(** What is checked of [duty_to_raw] at each percentage from 10 to 100. *)
Definition raw_ok (d : Z) : bool :=
  match duty_to_raw d with
  | Some r => (0 <=? r) && (r <=? 255)
  | None => false
  end.

Definition is_duty_outb (w : Z * Z) : bool := (w.2 =? EC_SC) && (w.1 =? 0x99).

(** What is checked of [temp_to_duty] at each temperature from 0 to 70. *)
Definition curve_ok (t : Z) : bool :=
  match temp_to_duty t with
  | Some d =>
      (10 <=? d) && (d <=? 100)
      && (if t <=? 40 then d =? 10 else true)
      && (if 70 <=? t then d =? 100 else true)
      && (match temp_to_duty (t + 1) with
          | Some d' => d <=? d'
          | None => false
          end)
  | None => false
  end.

(** ** Definitions for the further properties *)

Definition clamp_temp (temp : Z) : Z := Z.max 40 (Z.min temp 70).

Definition curve_exact (temp : Z) : Z :=
  10 + (clamp_temp temp - 40) * (clamp_temp temp - 34) / 12.

Definition curve_exact_ok (t : Z) : bool :=
  match temp_to_duty t with
  | Some d => d =? curve_exact t
  | None => false
  end.

Definition raw_exact_ok (d : Z) : bool :=
  match duty_to_raw d with
  | Some r =>
      (r =? 255 * d / 100)
      && match fan_duty_of_raw r with
         | Some d' => d' =? (if d mod 20 =? 0 then d else d - 1)
         | None => false
         end
  | None => false
  end.

Definition fan_duty_exact_ok (raw : Z) : bool :=
  match fan_duty_of_raw raw with
  | Some d => d =? 100 * raw / 255
  | None => false
  end.

(** The events of an [ec_io_wait] that reads [d0] first and then [ds]. *)
Definition wait_trace (port flag value d0 : Z) (ds : list Z) : list event :=
  [EvInb port d0] ++ repolls port ds
  ++ (if (length ds <? 100)%nat then []
      else [EvWaitError port (List.last ds d0) flag value]).

(** The microseconds slept. *)
Definition slept (t : list event) : Z :=
  foldr (fun e acc => match e with EvUsleep u => u + acc | _ => acc end) 0 t.

(** A controller whose state is the number of reads of the status port
    that still find the output buffer empty. *)
Definition countdown_ports : Ports nat :=
  {| port_inb := fun port s =>
       if port =? EC_SC then (match s with O => 1 | S _ => 0 end, Nat.pred s)
       else (0, s);
     port_outb := fun _ _ s => s;
     port_usleep := fun _ s => s;
     port_ioperm := fun _ s => (0, s) |}.

(** The writes a cycle may do: a read command or the fan-duty command to
    the command port, anything to the data port. *)
Definition ok_outb (w : Z * Z) : bool :=
  ((w.2 =? EC_SC) && ((w.1 =? EC_SC_READ_CMD) || (w.1 =? 0x99)))
  || (w.2 =? EC_DATA).

(** The events sleep no longer than [B] microseconds and write nothing
    but what [ok_outb] allows. *)
Definition bounded (B : Z) (t : list event) : Prop :=
  0 <= slept t <= B /\ forallb ok_outb (outbs t) = true.

(** A controller that [ioperm] refuses. *)
Definition no_access_ports : Ports unit :=
  {| port_inb := fun _ s => (0, s);
     port_outb := fun _ _ s => s;
     port_usleep := fun _ s => s;
     port_ioperm := fun _ s => (-1, s) |}.

(** * Proofs *)

(** Linear arithmetic on exponents, the facts on powers left aside. *)
Ltac elia :=
  repeat match goal with H : context [Z.pow _ _] |- _ => clear H end; lia.

(** ** Rounding to binary32

    The constants of the curve as binary32 numbers, and two facts on the
    rounding of [SpecFloat]: a positive exact result that is at least a
    binary32 number [c] rounds to a number that is at least [c], and a
    result of negative sign rounds to a number of negative sign. *)

Lemma lit_0_2_eq : F32.lit_0_2 = S754_finite false 13421773 (-26).
Proof. reflexivity. Qed.

Lemma of_int_0_eq : F32.of_int 0 = S754_zero false.
Proof. reflexivity. Qed.

Lemma of_int_1_eq : F32.of_int 1 = S754_finite false 8388608 (-23).
Proof. reflexivity. Qed.

Section Rounding.

Local Abbreviation fexp := (fexp F32.prec F32.emax).
Local Abbreviation shr_fexp := (shr_fexp F32.prec F32.emax).
Local Abbreviation binary_round_aux := (binary_round_aux F32.prec F32.emax).

Lemma fexp_eq e : fexp e = Z.max (e - 24) (-149).
Proof. reflexivity. Qed.

Lemma pow2_pos a : 0 <= a -> 0 < 2 ^ a.
Proof. intros. apply Z.pow_pos_nonneg; lia. Qed.

Lemma pow2_add a b : 0 <= a -> 0 <= b -> 2 ^ (a + b) = 2 ^ a * 2 ^ b.
Proof. intros. now apply Z.pow_add_r. Qed.

Lemma pow2_le a b : 0 <= a <= b -> 2 ^ a <= 2 ^ b.
Proof. intros. apply Z.pow_le_mono_r; lia. Qed.

Lemma digits2_pos_size p : digits2_pos p = Pos.size p.
Proof. induction p; simpl; congruence. Qed.

Lemma Zdigits2_bounds m :
  0 < m -> 0 < Zdigits2 m /\ 2 ^ (Zdigits2 m - 1) <= m < 2 ^ Zdigits2 m.
Proof.
  destruct m as [|p|p]; try lia. intros _. simpl.
  rewrite digits2_pos_size. split; [lia|].
  pose proof (Pos.size_le p) as Hle. pose proof (Pos.size_gt p) as Hgt.
  apply Pos2Z.pos_le_pos in Hle. apply Pos2Z.pos_lt_pos in Hgt.
  rewrite Pos2Z.inj_pow in Hle, Hgt. rewrite Pos2Z.inj_xO in Hle.
  change (Z.pos 2) with 2 in *.
  replace (Z.pos (Pos.size p)) with (Z.pos (Pos.size p) - 1 + 1) in Hle by lia.
  rewrite pow2_add in Hle by lia. change (2 ^ 1) with 2 in Hle. lia.
Qed.

Lemma shr_1_m mrs : 0 <= shr_m mrs -> shr_m (shr_1 mrs) = shr_m mrs / 2.
Proof.
  destruct mrs as [m r s]. simpl. intros Hm.
  destruct m as [|[p|p|]|]; cbn [shr_1 shr_m]; try lia; try reflexivity.
  - apply Z.div_unique with 1; lia.
  - apply Z.div_unique with 0; lia.
Qed.

Lemma iter_pos_shr_m p : forall mrs,
  0 <= shr_m mrs -> shr_m (SpecFloat.iter_pos shr_1 p mrs) = shr_m mrs / 2 ^ Z.pos p.
Proof.
  induction p as [p IH|p IH|]; intros mrs Hm; cbn [SpecFloat.iter_pos].
  - assert (H1 : 0 <= shr_m (shr_1 mrs)).
    { rewrite shr_1_m by easy. apply Z.div_pos; lia. }
    assert (H2 : 0 <= shr_m (SpecFloat.iter_pos shr_1 p (shr_1 mrs))).
    { rewrite IH by easy. apply Z.div_pos; [easy | apply pow2_pos; lia]. }
    rewrite IH, IH, shr_1_m by easy.
    rewrite !Z.div_div by (try apply pow2_pos; lia).
    f_equal. replace (Z.pos p~1) with (1 + Z.pos p + Z.pos p) by lia.
    rewrite !pow2_add by lia. change (2 ^ 1) with 2. ring.
  - assert (H2 : 0 <= shr_m (SpecFloat.iter_pos shr_1 p mrs)).
    { rewrite IH by easy. apply Z.div_pos; [easy | apply pow2_pos; lia]. }
    rewrite IH, IH by easy.
    rewrite !Z.div_div by (try apply pow2_pos; lia).
    f_equal. replace (Z.pos p~0) with (Z.pos p + Z.pos p) by lia.
    rewrite pow2_add by lia. reflexivity.
  - now apply shr_1_m.
Qed.

Lemma shr_record_of_loc_m m l : shr_m (shr_record_of_loc m l) = m.
Proof. destruct l as [|[]]; reflexivity. Qed.

(** What [shr_fexp] does to the mantissa and the exponent. *)
Lemma shr_fexp_spec m e l :
  0 <= m ->
  let n := fexp (Zdigits2 m + e) - e in
  (0 < n /\ shr_m (fst (shr_fexp m e l)) = m / 2 ^ n /\ snd (shr_fexp m e l) = e + n)
  \/ (n <= 0 /\ shr_m (fst (shr_fexp m e l)) = m /\ snd (shr_fexp m e l) = e).
Proof.
  intros Hm n. unfold SpecFloat.shr_fexp, shr. fold n.
  destruct n as [|p|p] eqn:Hn; simpl.
  - right. rewrite shr_record_of_loc_m. lia.
  - left. rewrite iter_pos_shr_m by (rewrite shr_record_of_loc_m; lia).
    rewrite shr_record_of_loc_m. lia.
  - right. rewrite shr_record_of_loc_m. lia.
Qed.



(** Cutting a mantissa to 24 bits keeps the number above every binary32
    number [mc * 2^ec] that it was above. *)
Lemma shr_fexp_lb m e l mc ec :
  0 < m -> -149 <= e -> 0 < mc < 2 ^ 24 -> -149 <= ec ->
  scaled mc ec <= scaled m e ->
  -149 <= snd (shr_fexp m e l) /\
  scaled mc ec <= scaled (shr_m (fst (shr_fexp m e l))) (snd (shr_fexp m e l)).
Proof.
  intros Hm He Hmc Hec Hle.
  destruct (shr_fexp_spec m e l) as [(Hn & Hq & He')|(Hn & Hq & He')];
    [lia | | rewrite Hq, He'; split; [lia | exact Hle]].
  rewrite Hq, He'. clear Hq He'.
  destruct (Zdigits2_bounds m Hm) as (Hd & Hlo & Hhi).
  set (d := Zdigits2 m) in *. set (n := fexp (d + e) - e) in *.
  assert (Hf : e + n = Z.max (d + e - 24) (-149)) by (unfold n; rewrite fexp_eq; lia).
  clearbody n d.
  split; [elia|]. unfold scaled in *.
  assert (Hpn : 0 < 2 ^ n) by (apply pow2_pos; elia).
  assert (Hpe : 0 < 2 ^ (e + 149)) by (apply pow2_pos; elia).
  destruct (Z_le_gt_dec (e + n) ec) as [Hgrid|Hbig].
  - replace (ec + 149) with ((ec - (e + n)) + (e + n + 149)) by elia.
    rewrite pow2_add, Z.mul_assoc by elia.
    apply Z.mul_le_mono_nonneg_r; [apply Z.lt_le_incl, pow2_pos; elia|].
    apply Z.div_le_lower_bound; [exact Hpn|].
    apply Z.mul_le_mono_pos_r with (p := 2 ^ (e + 149)); [exact Hpe|].
    etransitivity; [|exact Hle].
    replace (ec + 149) with (n + (ec - (e + n)) + (e + 149)) by elia.
    rewrite (pow2_add (n + _) (e + 149)), (pow2_add n) by elia.
    apply Z.eq_le_incl. ring.
  - assert (Hn24 : n = d - 24) by elia.
    assert (Hq : 2 ^ 23 <= m / 2 ^ n).
    { apply Z.div_le_lower_bound; [exact Hpn|].
      rewrite <- pow2_add by elia. replace (n + 23) with (d - 1) by elia. exact Hlo. }
    transitivity (2 ^ 24 * 2 ^ (ec + 149)).
    { apply Z.mul_le_mono_nonneg_r; [apply Z.lt_le_incl, pow2_pos; elia | apply Z.lt_le_incl, Hmc]. }
    transitivity (2 ^ 23 * 2 ^ (e + n + 149)).
    { rewrite <- (pow2_add 24), <- (pow2_add 23) by elia. apply pow2_le. elia. }
    apply Z.mul_le_mono_nonneg_r; [apply Z.lt_le_incl, pow2_pos; elia | exact Hq].
Qed.

Lemma shr_fexp_digits m e l :
  0 <= m ->
  0 <= shr_m (fst (shr_fexp m e l)) < 2 ^ 24.
Proof.
  intros Hm.
  assert (Hd : m < 2 ^ Zdigits2 m /\ 0 <= Zdigits2 m).
  { destruct (Z.eq_dec m 0) as [->|]; [simpl; lia|].
    destruct (Zdigits2_bounds m); lia. }
  destruct Hd as [Hhi Hd].
  destruct (shr_fexp_spec m e l Hm) as [(Hn & Hq & _)|(Hn & Hq & _)]; rewrite Hq;
    rewrite fexp_eq in Hn.
  - assert (0 < 2 ^ (fexp (Zdigits2 m + e) - e)) by (apply pow2_pos; rewrite fexp_eq; lia).
    split; [apply Z.div_pos; lia|].
    apply Z.div_lt_upper_bound; [lia|].
    rewrite <- pow2_add by (rewrite ?fexp_eq; lia).
    eapply Z.lt_le_trans; [exact Hhi|]. apply pow2_le. rewrite fexp_eq. lia.
  - split; [lia|]. eapply Z.lt_le_trans; [exact Hhi|]. apply pow2_le. lia.
Qed.

Lemma round_nearest_even_ge m l : m <= round_nearest_even m l.
Proof. destruct l as [|[]]; simpl; try lia. destruct (Z.even m); lia. Qed.

Lemma binary_round_aux_lb m e l mc ec :
  0 < m -> -149 <= e -> 0 < mc < 2 ^ 24 -> -149 <= ec ->
  scaled mc ec <= scaled m e ->
  lb (scaled mc ec) (binary_round_aux false m e l).
Proof.
  intros Hm He Hmc Hec Hle.
  assert (Hc : 0 < scaled mc ec).
  { unfold scaled. apply Z.mul_pos_pos; [lia | apply pow2_pos; lia]. }
  unfold SpecFloat.binary_round_aux.
  destruct (shr_fexp_lb m e l mc ec Hm He Hmc Hec Hle) as [He1 Hle1].
  destruct (shr_fexp m e l) as [mrs1 e1]. cbn [fst snd] in He1, Hle1.
  set (m1 := round_nearest_even (shr_m mrs1) (loc_of_shr_record mrs1)).
  assert (Hm1 : shr_m mrs1 <= m1) by apply round_nearest_even_ge.
  assert (Hp1 : 0 < 2 ^ (e1 + 149)) by (apply pow2_pos; lia).
  assert (Hpos1 : 0 < shr_m mrs1) by (unfold scaled in Hle1; nia).
  assert (Hle1' : scaled mc ec <= scaled m1 e1) by (unfold scaled in *; nia).
  destruct (shr_fexp_lb m1 e1 loc_Exact mc ec ltac:(lia) He1 Hmc Hec Hle1') as [He2 Hle2].
  pose proof (shr_fexp_digits m1 e1 loc_Exact ltac:(lia)) as Hdig.
  destruct (shr_fexp m1 e1 loc_Exact) as [mrs2 e2]. cbn [fst snd] in He2, Hle2, Hdig.
  assert (Hp2 : 0 < 2 ^ (e2 + 149)) by (apply pow2_pos; lia).
  destruct (shr_m mrs2) as [|p|p] eqn:Hm2.
  - unfold scaled in Hle2. lia.
  - destruct (e2 <=? F32.emax - F32.prec); simpl; [|exact I].
    split; [exact He2 | split; [apply Hdig | exact Hle2]].
  - lia.
Qed.

Lemma shl_align_spec mx ex ex' :
  ex' <= ex ->
  snd (shl_align mx ex ex') = ex' /\
  Z.pos (fst (shl_align mx ex ex')) = Z.pos mx * 2 ^ (ex - ex').
Proof.
  intros Hle. unfold shl_align.
  destruct (ex' - ex) as [|d|d] eqn:Hd; try lia; cbn [fst snd].
  - replace (ex - ex') with 0 by lia. simpl. lia.
  - split; [reflexivity|]. replace (ex - ex') with (Z.pos d) by lia.
    clear Hd Hle. induction d as [|d IH] using Pos.peano_ind.
    + simpl. lia.
    + rewrite Pos.iter_succ, Pos2Z.inj_succ.
      replace (Z.succ (Z.pos d)) with (1 + Z.pos d) by lia.
      rewrite pow2_add by lia. change (2 ^ 1) with 2.
      rewrite Pos2Z.inj_xO, IH. ring.
Qed.

Lemma binary_normalize_lb z ez mc ec :
  0 < z -> -149 <= ez -> 0 < mc < 2 ^ 24 -> -149 <= ec ->
  scaled mc ec <= scaled z ez ->
  lb (scaled mc ec) (binary_normalize F32.prec F32.emax z ez false).
Proof.
  intros Hz Hez Hmc Hec Hle. destruct z as [|p|p]; try lia.
  unfold binary_normalize, binary_round.
  set (e' := fexp (Z.pos (digits2_pos p) + ez)).
  assert (He' : -149 <= e') by (unfold e'; rewrite fexp_eq; lia).
  destruct (Z_le_gt_dec e' ez) as [Hsh|Hno].
  - destruct (shl_align_spec p ez e' Hsh) as [H2 H1].
    destruct (shl_align p ez e') as [mz ez']. cbn [fst snd] in H1, H2. subst ez'.
    apply binary_round_aux_lb; try lia.
    etransitivity; [exact Hle|]. unfold scaled. rewrite H1.
    replace (ez + 149) with ((ez - e') + (e' + 149)) by lia.
    rewrite pow2_add by lia. apply Z.eq_le_incl. ring.
  - unfold shl_align. destruct (e' - ez) as [|d|d] eqn:Hd; try lia.
    apply binary_round_aux_lb; try lia.
Qed.

End Rounding.

(** ** The curve outside of its range

    From 71 degrees on [x] is greater than 1 before it is clamped, below
    0 degrees it has the negative sign. *)

Lemma MIN_DUTY_TEMP_eq : MIN_DUTY_TEMP = S754_finite false 10485760 (-18).
Proof. reflexivity. Qed.

Lemma temp_range_eq :
  F32.sub MAX_DUTY_TEMP MIN_DUTY_TEMP = S754_finite false 15728640 (-19).
Proof. reflexivity. Qed.

Lemma of_int_lb t : 71 <= t -> lb (scaled 71 0) (F32.of_int t).
Proof.
  intros Ht. apply binary_normalize_lb; try lia.
  unfold scaled. apply Z.mul_le_mono_nonneg_r; [|exact Ht].
  apply Z.lt_le_incl, pow2_pos. lia.
Qed.

Lemma sub_40_lb f :
  lb (scaled 71 0) f -> lb (scaled 31 0) (F32.sub f MIN_DUTY_TEMP).
Proof.
  rewrite MIN_DUTY_TEMP_eq.
  destruct f as [| [] | | [] m e]; simpl; try easy.
  intros (He & Hm & Hle).
  set (ez := Z.min e (-18)).
  destruct (shl_align_spec m e ez ltac:(lia)) as [_ Ha].
  destruct (shl_align_spec 10485760 (-18) ez ltac:(lia)) as [_ Hb].
  rewrite Ha, Hb. clear Ha Hb.
  assert (Hez : -149 <= ez) by lia.
  assert (Hp : 0 < 2 ^ (ez + 149)) by (apply pow2_pos; lia).
  assert (Hs : scaled (Z.pos m * 2 ^ (e - ez) - 10485760 * 2 ^ (-18 - ez)) ez
               = scaled (Z.pos m) e - scaled 40 0).
  { unfold scaled. rewrite Z.mul_sub_distr_r, <- !Z.mul_assoc.
    rewrite <- !pow2_add by lia.
    replace (e - ez + (ez + 149)) with (e + 149) by lia.
    replace (-18 - ez + (ez + 149)) with (18 + 113) by lia.
    reflexivity. }
  assert (Hle' : scaled 31 0 <=
                 scaled (Z.pos m * 2 ^ (e - ez) - 10485760 * 2 ^ (-18 - ez)) ez).
  { rewrite Hs. unfold scaled in *. lia. }
  apply binary_normalize_lb; try lia.
  assert (0 < scaled 31 0) by reflexivity.
  unfold scaled in Hle'. nia.
Qed.

Lemma div_30_lb g :
  lb (scaled 31 0) g ->
  lb (scaled 33 (-5)) (F32.div g (F32.sub MAX_DUTY_TEMP MIN_DUTY_TEMP)).
Proof.
  rewrite temp_range_eq.
  destruct g as [| [] | | [] m e]; simpl; try easy.
  intros (He & Hm & Hle).
  unfold SFdiv_core_binary.
  destruct (Zdigits2_bounds (Z.pos m) ltac:(lia)) as (Hd & Hlo & _).
  set (d := Zdigits2 (Z.pos m)) in *.
  change (Zdigits2 15728640) with 24.
  set (e' := Z.min (SpecFloat.fexp F32.prec F32.emax (d + e - (24 + -19))) (e - -19)).
  assert (He' : e' = Z.min (Z.max (d + e - 29) (-149)) (e + 19)).
  { unfold e'. rewrite fexp_eq. lia. }
  clearbody e' d.
  set (s := e - -19 - e').
  assert (Hs : s = e + 19 - e') by (unfold s; lia).
  assert (Hs0 : 0 <= s) by elia.
  set (m' := match s with Z.pos _ => Z.shiftl (Z.pos m) s | 0 => Z.pos m | Z.neg _ => 0 end).
  assert (Hm' : m' = Z.pos m * 2 ^ s).
  { unfold m'. destruct s as [|p|p] eqn:Es; try lia.
    rewrite Z.shiftl_mul_pow2 by lia. reflexivity. }
  clearbody m' s.
  pose proof (Z.div_eucl_eq m' 15728640 ltac:(lia)) as Hdiv.
  assert (Hq : fst (Z.div_eucl m' 15728640) = m' / 15728640) by reflexivity.
  destruct (Z.div_eucl m' 15728640) as [q r]. cbn [fst] in Hq. clear Hdiv.
  assert (Hps : 0 < 2 ^ s) by (apply pow2_pos; lia).
  assert (Hpe : 0 < 2 ^ (e + 149)) by (apply pow2_pos; lia).
  assert (Hgoal : scaled 33 (-5) <= scaled q e').
  { subst q. unfold scaled. change (-5 + 149) with 144.
    destruct (Z_le_gt_dec e' (-5)) as [Hgrid|Hnorm].
    - replace 144 with ((-5 - e') + (e' + 149)) by elia.
      rewrite pow2_add, Z.mul_assoc by elia.
      apply Z.mul_le_mono_nonneg_r; [apply Z.lt_le_incl, pow2_pos; elia|].
      apply Z.div_le_lower_bound; [lia|].
      rewrite Hm'.
      apply Z.mul_le_mono_pos_r with (p := 2 ^ (e' + 149)); [apply pow2_pos; elia|].
      rewrite <- (Z.mul_assoc (Z.pos m)), <- (pow2_add s) by elia.
      replace (s + (e' + 149)) with (19 + (e + 149)) by elia.
      rewrite (pow2_add 19) by elia.
      rewrite <- !Z.mul_assoc, <- (pow2_add (-5 - e')) by elia.
      replace (-5 - e' + (e' + 149)) with 144 by elia.
      unfold scaled in Hle. simpl (0 + 149) in Hle.
      lia.
    - assert (Hq23 : 2 ^ 23 <= m' / 15728640).
      { apply Z.div_le_lower_bound; [lia|].
        transitivity (2 ^ 47); [now vm_compute|].
        rewrite Hm'. transitivity (2 ^ (d - 1) * 2 ^ s).
        - rewrite <- pow2_add by elia. apply pow2_le. elia.
        - apply Z.mul_le_mono_nonneg_r; [lia | exact Hlo]. }
      transitivity (2 ^ 23 * 2 ^ (e' + 149)).
      + transitivity (2 ^ 23 * 2 ^ 145); [now vm_compute|].
        apply Z.mul_le_mono_nonneg_l; [lia|]. apply pow2_le. elia.
      + apply Z.mul_le_mono_nonneg_r; [apply Z.lt_le_incl, pow2_pos; elia | exact Hq23]. }
  assert (Hq0 : 0 < q).
  { assert (0 < scaled 33 (-5)) by reflexivity.
    assert (0 < 2 ^ (e' + 149)) by (apply pow2_pos; elia).
    unfold scaled in Hgoal. nia. }
  apply binary_round_aux_lb; try elia; try exact Hq0; try exact Hgoal.
Qed.

Lemma temp_clamp_one x : lb (scaled 33 (-5)) x -> temp_clamp x = F32.of_int 1.
Proof.
  destruct x as [| [] | | [] m e]; simpl; try easy.
  intros (He & Hm & Hle).
  unfold temp_clamp, F32.ltb, SFltb.
  change (F32.of_int 0) with (S754_zero false).
  change (F32.of_int 1) with (S754_finite false 8388608 (-23)).
  cbn [SFcompare].
  assert (Hp : 0 < 2 ^ (e + 149)) by (apply pow2_pos; lia).
  unfold scaled in Hle. change (33 * 2 ^ (-5 + 149)) with (8650752 * 2 ^ 126) in Hle.
  destruct (Z.compare_spec (-23) e) as [<-|Hlt|Hgt].
  - change (-23 + 149) with 126 in Hle.
    assert (Hm23 : (8388608 < m)%positive).
    { change (8388608 < Z.pos m). apply Z.lt_le_trans with 8650752; [reflexivity|].
      apply Z.mul_le_mono_pos_r with (p := 2 ^ 126); [reflexivity | exact Hle]. }
    apply Pos.compare_lt_iff in Hm23.
    change (PosDef.Pos.compare_cont Eq 8388608 m) with (8388608 ?= m)%positive.
    rewrite Hm23. reflexivity.
  - reflexivity.
  - exfalso.
    assert (H1 : Z.pos m * 2 ^ (e + 149) < 2 ^ 24 * 2 ^ 125).
    { apply Z.lt_le_trans with (2 ^ 24 * 2 ^ (e + 149)).
      - apply Z.mul_lt_mono_pos_r; [exact Hp | exact Hm].
      - apply Z.mul_le_mono_nonneg_l; [lia|]. apply pow2_le. elia. }
    assert (H2 : 2 ^ 24 * 2 ^ 125 < 8650752 * 2 ^ 126) by reflexivity.
    lia.
Qed.

Lemma duty_curve_one : duty_curve (F32.of_int 1) = Some 100.
Proof. vm_compute. reflexivity. Qed.

Lemma temp_to_duty_high t : 71 <= t -> temp_to_duty t = Some 100.
Proof.
  intros Ht. unfold temp_to_duty, temp_scale.
  rewrite temp_clamp_one; [apply duty_curve_one|].
  apply div_30_lb, sub_40_lb, of_int_lb, Ht.
Qed.

Lemma binary_round_aux_neg m e l :
  0 <= m -> neg (binary_round_aux F32.prec F32.emax true m e l).
Proof.
  intros Hm. unfold binary_round_aux.
  pose proof (shr_fexp_digits m e l Hm) as [H1 _].
  destruct (shr_fexp F32.prec F32.emax m e l) as [mrs1 e1]. cbn [fst] in H1.
  pose proof (round_nearest_even_ge (shr_m mrs1) (loc_of_shr_record mrs1)) as H2.
  pose proof (shr_fexp_digits _ e1 loc_Exact (Z.le_trans _ _ _ H1 H2)) as [H3 _].
  destruct (shr_fexp F32.prec F32.emax _ e1 loc_Exact) as [mrs2 e2]. cbn [fst] in H3.
  destruct (shr_m mrs2); [exact I | | lia].
  destruct (e2 <=? F32.emax - F32.prec); exact I.
Qed.

Lemma binary_round_neg p e : neg (binary_round F32.prec F32.emax true p e).
Proof.
  unfold binary_round.
  destruct (shl_align p e _) as [mz ez]. apply binary_round_aux_neg. lia.
Qed.

Lemma binary_normalize_neg z e :
  z < 0 -> neg (binary_normalize F32.prec F32.emax z e false).
Proof.
  destruct z as [|p|p]; try lia. intros _. apply binary_round_neg.
Qed.

Lemma sub_40_neg f : neg f -> neg (F32.sub f MIN_DUTY_TEMP).
Proof.
  rewrite MIN_DUTY_TEMP_eq.
  destruct f as [[] | [] | | [] m e]; simpl; try easy. intros _.
  apply binary_round_neg.
Qed.

Lemma div_30_neg g :
  neg g -> neg (F32.div g (F32.sub MAX_DUTY_TEMP MIN_DUTY_TEMP)).
Proof.
  rewrite temp_range_eq.
  destruct g as [[] | [] | | [] m e]; simpl; try easy. intros _.
  unfold SFdiv_core_binary.
  set (s := e - -19 - _).
  set (m' := match s with Z.pos _ => Z.shiftl (Z.pos m) s | 0 => Z.pos m | Z.neg _ => 0 end).
  assert (Hm' : 0 <= m').
  { unfold m'. destruct s; try lia. apply Z.shiftl_nonneg. lia. }
  clearbody m'.
  assert (Hq : 0 <= fst (Z.div_eucl m' 15728640)).
  { change (0 <= m' / 15728640). apply Z.div_pos; lia. }
  destruct (Z.div_eucl m' 15728640) as [q r]. apply binary_round_aux_neg, Hq.
Qed.

Lemma temp_clamp_neg x :
  neg x -> temp_clamp x = S754_zero true \/ temp_clamp x = S754_zero false.
Proof. destruct x as [[] | [] | | [] m e]; simpl; try easy; auto. Qed.

Lemma duty_curve_zero s : duty_curve (S754_zero s) = Some 10.
Proof. destruct s; vm_compute; reflexivity. Qed.

Lemma temp_to_duty_negative t : t < 0 -> temp_to_duty t = Some 10.
Proof.
  intros Ht. unfold temp_to_duty, temp_scale.
  destruct (temp_clamp_neg (F32.div (F32.sub (F32.of_int t) MIN_DUTY_TEMP)
                                    (F32.sub MAX_DUTY_TEMP MIN_DUTY_TEMP))) as [-> | ->];
    try apply duty_curve_zero.
  apply div_30_neg, sub_40_neg. now apply binary_normalize_neg.
Qed.

Lemma curve_ok_0_70 t : 0 <= t <= 70 -> curve_ok t = true.
Proof.
  intros Ht.
  assert (H : forallb curve_ok (seqZ 0 71) = true) by (vm_compute; reflexivity).
  rewrite forallb_forall in H. apply H.
  apply list_elem_of_In, elem_of_seqZ. lia.
Qed.

(** ** The curve on all integers *)

Lemma curve_ok_spec t :
  curve_ok t = true ->
  exists d d', temp_to_duty t = Some d /\ temp_to_duty (t + 1) = Some d' /\
    10 <= d <= 100 /\ d <= d' /\ (t <= 40 -> d = 10) /\ (70 <= t -> d = 100).
Proof.
  unfold curve_ok.
  destruct (temp_to_duty t) as [d|]; [|discriminate].
  destruct (temp_to_duty (t + 1)) as [d'|]; [|rewrite andb_false_r; discriminate].
  intros H. exists d, d'.
  apply andb_prop in H as [H H5]. apply andb_prop in H as [H H4].
  apply andb_prop in H as [H H3]. apply andb_prop in H as [H1 H2].
  apply Z.leb_le in H1, H2, H5.
  repeat split; try assumption.
  - intros Ht. apply Z.leb_le in Ht. rewrite Ht in H3. now apply Z.eqb_eq.
  - intros Ht. apply Z.leb_le in Ht. rewrite Ht in H4. now apply Z.eqb_eq.
Qed.

Lemma temp_to_duty_cases t :
  (t < 0 /\ temp_to_duty t = Some 10)
  \/ (0 <= t <= 70 /\ curve_ok t = true)
  \/ (70 < t /\ temp_to_duty t = Some 100).
Proof.
  destruct (Z_lt_le_dec t 0); [left; split; [lia | now apply temp_to_duty_negative]|].
  destruct (Z_le_gt_dec t 70); [right; left; split; [lia | apply curve_ok_0_70; lia]|].
  right; right; split; [lia | apply temp_to_duty_high; lia].
Qed.

Lemma temp_to_duty_range t :
  exists d, temp_to_duty t = Some d /\ 10 <= d <= 100.
Proof.
  destruct (temp_to_duty_cases t) as [[_ H]|[[_ H]|[_ H]]].
  - exists 10. split; [exact H | lia].
  - apply curve_ok_spec in H as (d & d' & H & _ & Hr & _). eauto.
  - exists 100. split; [exact H | lia].
Qed.

Lemma temp_to_duty_low t : t <= 40 -> temp_to_duty t = Some 10.
Proof.
  intros Ht. destruct (temp_to_duty_cases t) as [[_ H]|[[_ H]|[? H]]]; [exact H | | lia].
  apply curve_ok_spec in H as (d & d' & H & _ & _ & _ & Hlo & _).
  rewrite H, Hlo; auto.
Qed.

Lemma temp_to_duty_top t : 70 <= t -> temp_to_duty t = Some 100.
Proof.
  intros Ht. destruct (temp_to_duty_cases t) as [[? H]|[[_ H]|[_ H]]]; [lia | | exact H].
  apply curve_ok_spec in H as (d & d' & H & _ & _ & _ & _ & Hhi).
  rewrite H, Hhi; auto.
Qed.

Lemma temp_to_duty_step t :
  exists d d', temp_to_duty t = Some d /\ temp_to_duty (t + 1) = Some d' /\ d <= d'.
Proof.
  destruct (temp_to_duty_cases t) as [[? H]|[[_ H]|[? H]]].
  - exists 10, 10. rewrite H, temp_to_duty_low by lia. split; [|split]; auto; lia.
  - apply curve_ok_spec in H as (d & d' & H & H' & _ & Hle & _). eauto.
  - exists 100, 100. rewrite H, temp_to_duty_top by lia. split; [|split]; auto; lia.
Qed.

Lemma temp_to_duty_mono_nat (n : nat) : forall t,
  exists d d', temp_to_duty t = Some d /\ temp_to_duty (t + Z.of_nat n) = Some d' /\ d <= d'.
Proof.
  induction n as [|n IH]; intros t.
  - destruct (temp_to_duty_range t) as (d & H & _). exists d, d.
    rewrite Z.add_0_r. split; [|split]; auto; lia.
  - destruct (IH t) as (d & d1 & H & H1 & Hle).
    destruct (temp_to_duty_step (t + Z.of_nat n)) as (d1' & d2 & H1' & H2 & Hle').
    rewrite H1 in H1'. injection H1' as <-.
    exists d, d2. rewrite Nat2Z.inj_succ.
    replace (t + Z.succ (Z.of_nat n)) with (t + Z.of_nat n + 1) by lia.
    split; [|split]; auto; lia.
Qed.

Lemma temp_to_duty_mono t1 t2 :
  t1 <= t2 ->
  exists d1 d2, temp_to_duty t1 = Some d1 /\ temp_to_duty t2 = Some d2 /\ d1 <= d2.
Proof.
  intros Hle. replace t2 with (t1 + Z.of_nat (Z.to_nat (t2 - t1))) by lia.
  apply temp_to_duty_mono_nat.
Qed.

(** ** The history *)

Lemma max_0_0 : max 0 0 = 0.
Proof. reflexivity. Qed.

Lemma history_max_zeros (n : nat) : history_max (replicate n 0) = 0.
Proof. unfold history_max. induction n as [|n IH]; simpl; auto. Qed.

Lemma fold_left_max_ge (h : list Z) : forall a, a <= fold_left max h a.
Proof.
  induction h as [|x h IH]; intros a; simpl; [lia|].
  etransitivity; [|apply IH]. unfold max. destruct (Z.gtb_spec a x); lia.
Qed.

Lemma fold_left_max_le (h : list Z) b : forall a,
  a <= b -> Forall (fun x => x <= b) h -> fold_left max h a <= b.
Proof.
  induction h as [|x h IH]; intros a Ha Hh; simpl; [exact Ha|].
  inversion Hh; subst. apply IH; [|assumption].
  unfold max. destruct (Z.gtb_spec a x); lia.
Qed.

Lemma fold_left_max_elem (h : list Z) x : forall a,
  x ∈ h -> x <= fold_left max h a.
Proof.
  induction h as [|y h IH]; intros a Hx; [inversion Hx|].
  simpl. apply elem_of_cons in Hx as [->|Hx]; [|now apply IH].
  etransitivity; [|apply fold_left_max_ge].
  unfold max. destruct (Z.gtb_spec a y); lia.
Qed.

(** The maximum of a history of zeros with one positive sample in it. *)
Lemma history_max_spike (n i : nat) spike :
  (i < n)%nat -> 0 < spike ->
  history_max (<[i := spike]> (replicate n 0)) = spike.
Proof.
  intros Hi Hs. unfold history_max. apply Z.le_antisymm.
  - apply fold_left_max_le; [lia|].
    apply Forall_forall. intros x Hx.
    apply list_elem_of_lookup in Hx as [j Hj].
    destruct (decide (i = j)) as [->|Hne].
    + rewrite list_lookup_insert_eq in Hj by (rewrite length_replicate; lia).
      injection Hj as <-. lia.
    + rewrite list_lookup_insert_ne in Hj by exact Hne.
      apply lookup_replicate in Hj as [-> _]. lia.
  - apply fold_left_max_elem. apply list_elem_of_lookup. exists i.
    apply list_lookup_insert_eq. rewrite length_replicate. lia.
Qed.

Lemma history_push_ok len (h : list Z) pos x :
  length h = Z.to_nat len -> 0 <= pos < len ->
  history_push len h pos x = Some (<[Z.to_nat pos := x]> h, (pos + 1) mod len).
Proof.
  intros Hlen Hpos. unfold history_push.
  destruct (Z.leb_spec 0 pos); [|lia].
  destruct (Z.ltb_spec pos (Z.of_nat (length h))); [|lia].
  destruct (Z.eqb_spec len 0); [lia|]. simpl.
  rewrite Z.rem_mod_nonneg by lia. reflexivity.
Qed.

Section Aging.

Variables (N pos spike : Z).
Hypothesis HN : 0 < N.
Hypothesis Hpos : 0 <= pos < N.
Hypothesis Hspike : 0 < spike.

Let zeros : list Z := replicate (Z.to_nat N) 0.
Let spiked : list Z := <[Z.to_nat pos := spike]> zeros.

Lemma spiked_length : length spiked = Z.to_nat N.
Proof using Type. unfold spiked, zeros. now rewrite length_insert, length_replicate. Qed.

Lemma spiked_max : history_max spiked = spike.
Proof using HN Hpos Hspike. apply history_max_spike; lia. Qed.

(** The pushes of zeros before the spike is reached again leave the
    array as it is. *)
Lemma push_zeros_keep (k : nat) : forall j,
  1 <= j -> j + Z.of_nat k <= N ->
  history_push_all N spiked ((pos + j) mod N) (replicate k 0)
  = Some (spiked, (pos + j + Z.of_nat k) mod N).
Proof using HN Hpos.
  induction k as [|k IH]; intros j Hj Hjk; simpl.
  - now rewrite Z.add_0_r.
  - assert (Hr : 0 <= (pos + j) mod N < N) by (apply Z.mod_pos_bound; lia).
    assert (Hne : (pos + j) mod N <> pos).
    { intros Heq.
      assert (Hd : (pos + j) mod N = (pos + j) - N * ((pos + j) / N))
        by (rewrite Z.mod_eq; lia).
      assert (Hq : (pos + j) / N = 0 \/ (pos + j) / N = 1).
      { assert (0 <= (pos + j) / N) by (apply Z.div_pos; lia).
        assert ((pos + j) / N < 2) by (apply Z.div_lt_upper_bound; lia).
        lia. }
      destruct Hq as [Hq|Hq]; rewrite Hq in Hd; lia. }
    rewrite history_push_ok by (first [apply spiked_length | exact Hr]).
    rewrite list_insert_id.
    + rewrite Zplus_mod_idemp_l.
      replace (pos + j + 1) with (pos + (j + 1)) by lia.
      rewrite IH by lia.
      replace (pos + (j + 1) + Z.of_nat k) with (pos + j + Z.of_nat (S k)) by lia.
      reflexivity.
    + unfold spiked. rewrite list_lookup_insert_ne by lia.
      unfold zeros. apply lookup_replicate. split; [reflexivity | lia].
Qed.

Lemma push_spike :
  history_push N zeros pos spike = Some (spiked, (pos + 1) mod N).
Proof using HN Hpos.
  apply history_push_ok; [|lia]. unfold zeros. apply length_replicate.
Qed.

Lemma push_zeros_age :
  history_push_all N spiked ((pos + 1) mod N) (replicate (Z.to_nat N) 0)
  = Some (zeros, (pos + 1) mod N).
Proof using HN Hpos.
  replace (Z.to_nat N) with (Z.to_nat (N - 1) + 1)%nat at 1 by lia.
  rewrite replicate_add. simpl.
  assert (Hall : forall l1 l2 h p,
    history_push_all N h p (l1 ++ l2)
    = match history_push_all N h p l1 with
      | Some (h', p') => history_push_all N h' p' l2
      | None => None
      end).
  { induction l1 as [|x l1 IHl]; intros l2 h p; simpl; [reflexivity|].
    destruct (history_push N h p x) as [[h' p']|]; [apply IHl | reflexivity]. }
  rewrite Hall, push_zeros_keep by lia.
  rewrite Z2Nat.id by lia. replace (pos + 1 + (N - 1)) with (pos + 1 * N) by lia.
  rewrite Z.mod_add, Z.mod_small by lia. simpl.
  rewrite history_push_ok by (try apply spiked_length; lia).
  unfold spiked. rewrite list_insert_insert_eq.
  unfold zeros. rewrite insert_replicate. reflexivity.
Qed.

End Aging.

(** ** Observations *)

Lemma count_events_app f t1 t2 :
  count_events f (t1 ++ t2) = (count_events f t1 + count_events f t2)%nat.
Proof. unfold count_events. now rewrite List.filter_app, length_app. Qed.

Lemma duty_writes_app t1 t2 :
  duty_writes (t1 ++ t2) = (duty_writes t1 + duty_writes t2)%nat.
Proof. apply count_events_app. Qed.

Lemma outbs_app t1 t2 : outbs (t1 ++ t2) = outbs t1 ++ outbs t2.
Proof. apply omap_app. Qed.

Lemma duty_writes_outbs t :
  duty_writes t = length (List.filter is_duty_outb (outbs t)).
Proof.
  unfold duty_writes, count_events, outbs.
  induction t as [|e t IH]; [reflexivity|].
  destruct e; simpl; try exact IH.
  unfold is_duty_outb at 1. simpl. destruct (_ && _); simpl; now rewrite IH.
Qed.

(** ** Running to the end *)

Section Runs.

Context {HW : Type} {ports : Ports HW}.

Lemma returns_ret {A} (a : A) (Q : A -> list event -> Prop) :
  Q a [] -> returns (HW := HW) (ret a) Q.
Proof. intros HQ s. exists a, s, []. now split. Qed.

Lemma returns_bind {A B} (m : M HW A) (f : A -> M HW B) P Q :
  returns m P ->
  (forall a t1, P a t1 -> returns (f a) (fun b t2 => Q b (t1 ++ t2))) ->
  returns (bind m f) Q.
Proof.
  intros Hm Hf s. destruct (Hm s) as (a & s1 & t1 & E1 & HP).
  destruct (Hf a t1 HP s1) as (b & s2 & t2 & E2 & HQ).
  exists b, s2, (t1 ++ t2). unfold bind. now rewrite E1, E2.
Qed.

Lemma returns_weaken {A} (m : M HW A) (P Q : A -> list event -> Prop) :
  returns m P -> (forall a t, P a t -> Q a t) -> returns m Q.
Proof.
  intros Hm HPQ s. destruct (Hm s) as (a & s1 & t1 & E1 & HP).
  exists a, s1, t1. auto.
Qed.

Lemma returns_lift {A} (o : option A) (a : A) (Q : A -> list event -> Prop) :
  o = Some a -> Q a [] -> returns (HW := HW) (lift o) Q.
Proof. intros -> HQ. now apply returns_ret. Qed.

Lemma returns_bind_lift {A B} (o : option A) (a : A) (f : A -> M HW B) Q :
  o = Some a -> returns (f a) Q -> returns (bind (lift o) f) Q.
Proof.
  intros -> Hf s. destruct (Hf s) as (b & s2 & t2 & E & HQ).
  exists b, s2, t2. unfold bind, lift, ret. now rewrite E.
Qed.

Lemma uint8_range n : 0 <= uint8 n < 256.
Proof. unfold uint8. apply Z.mod_pos_bound. lia. Qed.

Lemma uint8_small n : 0 <= n < 256 -> uint8 n = n.
Proof. intros. unfold uint8. now apply Z.mod_small. Qed.

Lemma uint8_idem n : uint8 (uint8 n) = uint8 n.
Proof. apply uint8_small, uint8_range. Qed.

Lemma returns_inb port :
  returns (inb port) (fun v t => t = [EvInb port v] /\ 0 <= v < 256).
Proof.
  intros s. unfold inb. destruct (port_inb port s) as [v s1].
  exists (uint8 v), s1, [EvInb port (uint8 v)]. auto using uint8_range.
Qed.

Lemma returns_outb v p :
  returns (outb v p) (fun _ t => t = [EvOutb (uint8 v) p]).
Proof. intros s. unfold outb. eauto 6. Qed.

Lemma returns_usleep u : returns (usleep u) (fun _ t => t = [EvUsleep u]).
Proof. intros s. unfold usleep. eauto 6. Qed.

Lemma returns_emit e : returns (HW := HW) (emit e) (fun _ t => t = [e]).
Proof. intros s. unfold emit. eauto 6. Qed.

(** *** [ec_io_wait] *)

Lemma returns_wait_loop port flag value (fuel : nat) : forall data i,
  0 <= i <= 100 -> (Z.to_nat (101 - i) <= fuel)%nat ->
  returns (ec_io_wait_loop fuel port flag value data i) (fun _ t => outbs t = []).
Proof.
  induction fuel as [|fuel IH]; intros data i Hi Hfuel; [lia|].
  simpl. destruct (negb _); [|now apply returns_ret].
  destruct (Z.ltb_spec i 100); [|now apply returns_ret].
  eapply returns_bind; [apply returns_usleep|]. intros _ t1 ->.
  eapply returns_bind; [apply returns_inb|]. intros data' t2 [-> _].
  eapply returns_weaken; [apply IH; lia|]. intros ? t Ht. simpl in *. exact Ht.
Qed.

Lemma returns_ec_io_wait port flag value :
  returns (ec_io_wait port flag value) (fun _ t => outbs t = []).
Proof.
  unfold ec_io_wait.
  eapply returns_bind; [apply returns_inb|]. intros data t1 [-> _].
  eapply returns_bind; [apply (returns_wait_loop port flag value); unfold ec_io_wait_fuel; lia|].
  intros [data' i] t2 Ht2.
  destruct (i >=? 100).
  - eapply returns_weaken; [apply returns_emit|]. intros _ t ->.
    simpl. rewrite outbs_app, Ht2. reflexivity.
  - apply returns_ret. simpl. rewrite app_nil_r. exact Ht2.
Qed.

Lemma returns_ec_io_read port :
  returns (ec_io_read port)
    (fun v t => outbs t = [(EC_SC_READ_CMD, EC_SC); (uint8 port, EC_DATA)]
                /\ 0 <= v < 256).
Proof.
  unfold ec_io_read.
  eapply returns_bind; [apply returns_ec_io_wait|]. intros ? t1 H1; simpl in H1.
  eapply returns_bind; [apply returns_outb|]. intros _ t2 ->.
  eapply returns_bind; [apply returns_ec_io_wait|]. intros ? t3 H3; simpl in H3.
  eapply returns_bind; [apply returns_outb|]. intros _ t4 ->.
  eapply returns_bind; [apply returns_ec_io_wait|]. intros ? t5 H5; simpl in H5.
  eapply returns_weaken; [apply returns_inb|]. intros v t6 [-> Hv].
  split; [|exact Hv].
  rewrite !outbs_app, H1, H3, H5. reflexivity.
Qed.

Lemma returns_ec_io_do cmd port value :
  returns (ec_io_do cmd port value)
    (fun _ t => outbs t = [(uint8 cmd, EC_SC); (uint8 port, EC_DATA);
                           (uint8 value, EC_DATA)]).
Proof.
  unfold ec_io_do.
  eapply returns_bind; [apply returns_ec_io_wait|]. intros ? t1 H1; simpl in H1.
  eapply returns_bind; [apply returns_outb|]. intros _ t2 ->.
  eapply returns_bind; [apply returns_ec_io_wait|]. intros ? t3 H3; simpl in H3.
  eapply returns_bind; [apply returns_outb|]. intros _ t4 ->.
  eapply returns_bind; [apply returns_ec_io_wait|]. intros ? t5 H5; simpl in H5.
  eapply returns_bind; [apply returns_outb|]. intros _ t6 ->.
  eapply returns_weaken; [apply returns_ec_io_wait|]. intros ? t7 H7; simpl in H7.
  rewrite !outbs_app, H1, H3, H5, H7. simpl.
  rewrite uint8_idem. reflexivity.
Qed.

End Runs.

(** ** The conversions between percentages and bytes *)

Lemma duty_to_raw_byte d :
  10 <= d <= 100 -> exists r, duty_to_raw d = Some r /\ 0 <= r < 256.
Proof.
  intros Hd.
  assert (H : forallb raw_ok (seqZ 10 91) = true) by (vm_compute; reflexivity).
  rewrite forallb_forall in H.
  specialize (H d ltac:(apply list_elem_of_In, elem_of_seqZ; lia)).
  unfold raw_ok in H. destruct (duty_to_raw d) as [r|]; [|discriminate].
  exists r. apply andb_prop in H as [H1 H2]. apply Z.leb_le in H1, H2.
  split; [reflexivity | lia].
Qed.

Lemma fan_duty_of_raw_total raw :
  0 <= raw < 256 -> exists d, fan_duty_of_raw raw = Some d.
Proof.
  intros Hr.
  assert (H : forallb (fun r => bool_decide (is_Some (fan_duty_of_raw r))) (seqZ 0 256) = true)
    by (vm_compute; reflexivity).
  rewrite forallb_forall in H.
  specialize (H raw ltac:(apply list_elem_of_In, elem_of_seqZ; lia)).
  apply bool_decide_eq_true in H. exact H.
Qed.

Lemma sanitize_duty_range d : 10 <= sanitize_duty d <= 100.
Proof.
  unfold sanitize_duty. destruct (Z.ltb_spec d 10).
  - simpl. lia.
  - destruct (Z.gtb_spec d 100); lia.
Qed.

Lemma sanitize_duty_id d : 10 <= d <= 100 -> sanitize_duty d = d.
Proof.
  intros Hd. unfold sanitize_duty. destruct (Z.ltb_spec d 10); [lia|].
  destruct (Z.gtb_spec d 100); lia.
Qed.

Lemma fan_rpms_of_raw_spec hi lo :
  0 <= hi < 256 -> 0 <= lo < 256 ->
  fan_rpms_of_raw hi lo
  = Some (if hi * 256 + lo =? 0 then 0 else 2156220 / (hi * 256 + lo)).
Proof.
  intros Hhi Hlo. unfold fan_rpms_of_raw. rewrite Z.shiftl_mul_pow2 by lia.
  change (2 ^ 8) with 256.
  destruct (Z.gtb_spec (hi * 256 + lo) 0) as [Hpos|Hzero].
  - unfold int_div. destruct (Z.eqb_spec (hi * 256 + lo) 0); [lia|]. simpl.
    rewrite Z.quot_div_nonneg by lia. reflexivity.
  - destruct (Z.eqb_spec (hi * 256 + lo) 0); [reflexivity | lia].
Qed.

Section Queries.

Context {HW : Type} {ports : Ports HW}.
Variable cfg : config.

Lemma returns_ec_write_fan_duty d :
  returns (ec_write_fan_duty d)
    (fun _ t => exists raw, duty_to_raw (sanitize_duty d) = Some raw /\ 0 <= raw < 256
                /\ outbs t = [(0x99, EC_SC); (0x01, EC_DATA); (raw, EC_DATA)]).
Proof.
  unfold ec_write_fan_duty.
  destruct (duty_to_raw_byte (sanitize_duty d) (sanitize_duty_range d)) as (raw & E & Hr).
  rewrite E. simpl.
  apply returns_bind with (P := fun v t => v = raw /\ t = []);
    [apply returns_ret; auto|]. intros v t1 [-> ->].
  eapply returns_weaken; [apply returns_ec_io_do|]. intros ? t Ht.
  exists raw. simpl. rewrite Ht, (uint8_small raw) by exact Hr. auto.
Qed.

Lemma returns_ec_query_fan_duty :
  returns ec_query_fan_duty (fun _ t => duty_writes t = 0%nat).
Proof.
  unfold ec_query_fan_duty.
  eapply returns_bind; [apply returns_ec_io_read|]. intros raw t1 [H1 Hraw].
  destruct (fan_duty_of_raw_total raw Hraw) as [d E].
  eapply returns_lift; [exact E|].
  rewrite app_nil_r, duty_writes_outbs, H1. reflexivity.
Qed.

Lemma returns_ec_query_fan_rpms :
  returns ec_query_fan_rpms (fun _ t => duty_writes t = 0%nat).
Proof.
  unfold ec_query_fan_rpms.
  eapply returns_bind; [apply returns_ec_io_read|]. intros hi t1 [H1 Hhi].
  eapply returns_bind; [apply returns_ec_io_read|]. intros lo t2 [H2 Hlo].
  eapply returns_lift; [now apply fan_rpms_of_raw_spec|].
  rewrite app_nil_r, duty_writes_app, !duty_writes_outbs, H1, H2. reflexivity.
Qed.

Lemma returns_ec_query_temp reg :
  returns (ec_io_read reg) (fun v t => 0 <= v < 256 /\ duty_writes t = 0%nat).
Proof.
  eapply returns_weaken; [apply returns_ec_io_read|]. intros v t [Ht Hv].
  split; [exact Hv|]. rewrite duty_writes_outbs, Ht. reflexivity.
Qed.

Lemma returns_args2 {A B} (a : M HW A) (b : M HW B) P Q :
  returns a (fun x t => P x /\ duty_writes t = 0%nat) ->
  returns b (fun y t => Q y /\ duty_writes t = 0%nat) ->
  returns (args2 cfg a b) (fun r t => P r.1 /\ Q r.2 /\ duty_writes t = 0%nat).
Proof.
  intros Ha Hb. unfold args2. destruct (args_right_to_left cfg).
  - eapply returns_bind; [exact Hb|]. intros y t1 [Hy H1].
    eapply returns_bind; [exact Ha|]. intros x t2 [Hx H2].
    apply returns_ret. rewrite app_nil_r, duty_writes_app, H1, H2. auto.
  - eapply returns_bind; [exact Ha|]. intros x t1 [Hx H1].
    eapply returns_bind; [exact Hb|]. intros y t2 [Hy H2].
    apply returns_ret. rewrite app_nil_r, duty_writes_app, H1, H2. auto.
Qed.

Lemma returns_print_state temp_cur temp_max new_duty :
  returns (print_state cfg temp_cur temp_max new_duty)
    (fun _ t => duty_writes t = 0%nat).
Proof.
  unfold print_state. destruct (PRINT_STATE cfg); [|now apply returns_ret].
  eapply returns_bind.
  - apply (returns_args2 _ _ (fun _ => True) (fun _ => True)).
    + eapply returns_weaken; [apply returns_ec_query_fan_rpms|]. auto.
    + eapply returns_weaken; [apply returns_ec_query_fan_duty|]. auto.
  - intros r t1 (_ & _ & H1).
    eapply returns_weaken; [apply returns_emit|]. intros ? t ->.
    rewrite duty_writes_app, H1. reflexivity.
Qed.

End Queries.

Lemma max_byte a b : 0 <= a < 256 -> 0 <= b < 256 -> 0 <= max a b < 256.
Proof. intros. unfold max. destruct (Z.gtb_spec a b); lia. Qed.

Lemma wf_initial_state cfg :
  0 < TEMP_HISTORY_LEN cfg -> wf_state cfg (initial_state cfg).
Proof.
  intros Hlen. split; simpl; [apply length_replicate | lia].
Qed.

Lemma wf_state_rate cfg st :
  wf_state cfg st -> int_div (1000 * 1000) (RATE cfg) = Some (1000 * 1000 ÷ RATE cfg).
Proof.
  intros [_ Hpos]. unfold int_div, TEMP_HISTORY_LEN in *.
  destruct (Z.eqb_spec (RATE cfg) 0) as [E|_]; [rewrite E in Hpos; lia|].
  reflexivity.
Qed.

Section Loop.

Context {HW : Type} {ports : Ports HW}.
Variable cfg : config.

Lemma returns_cycle st :
  wf_state cfg st -> returns (cycle cfg st) (cycle_post cfg st).
Proof.
  intros Hwf. pose proof Hwf as [Hlen Hpos]. unfold cycle.
  eapply returns_bind.
  { apply (returns_args2 cfg _ _ (fun v => 0 <= v < 256) (fun v => 0 <= v < 256));
      apply returns_ec_query_temp. }
  intros [c g] t1 (Hc & Hg & H1). cbn [fst snd] in *.
  pose proof (max_byte c g Hc Hg) as Hcur.
  eapply returns_bind_lift; [apply history_push_ok; assumption|]. cbn [fst snd].
  destruct (temp_to_duty_range (history_max (<[Z.to_nat (temp_history_pos st) := max c g]>
                                               (temp_history st)))) as (d & Ed & Hd).
  eapply returns_bind_lift; [exact Ed|].
  eapply returns_bind; [apply returns_print_state|]. intros ? t4 H4. simpl in H4.
  eapply returns_bind with
    (P := fun prev t => prev = d
            /\ duty_writes t = (if d =? prev_duty st then 0%nat else 1%nat)
            /\ (d <> prev_duty st ->
                exists raw, duty_to_raw d = Some raw
                  /\ outbs t = [(0x99, EC_SC); (0x01, EC_DATA); (raw, EC_DATA)])).
  { destruct (Z.eqb_spec d (prev_duty st)) as [E|E]; simpl.
    - apply returns_ret. split; [now symmetry|]. split; [reflexivity|]. contradiction.
    - eapply returns_bind; [apply returns_ec_write_fan_duty|].
      intros ? t (raw & Eraw & _ & Ht). apply returns_ret.
      rewrite sanitize_duty_id in Eraw by exact Hd. rewrite app_nil_r.
      split; [reflexivity|]. split; [rewrite duty_writes_outbs, Ht; reflexivity|].
      intros _. exists raw. split; assumption. }
  intros ? t5 (-> & H5 & H5o).
  eapply returns_bind_lift; [apply (wf_state_rate cfg st Hwf)|].
  eapply returns_bind; [apply returns_usleep|]. intros ? t7 ->.
  apply returns_ret. split.
  - split; cbn [temp_history temp_history_pos].
    + now rewrite length_insert.
    + apply Z.mod_pos_bound. lia.
  - exists (max c g), d. cbn [temp_history temp_history_pos prev_duty].
    split; [exact Hcur|]. split; [now apply history_push_ok|].
    split; [exact Ed|]. split; [reflexivity|]. split.
    + rewrite !app_nil_r, !duty_writes_app, H1, H4, H5.
      destruct (d =? prev_duty st); reflexivity.
    + intros Hne. destruct (H5o Hne) as (raw & Eraw & Ho).
      exists (outbs t1 ++ outbs t4), raw. split; [exact Eraw|].
      rewrite !app_nil_r, !outbs_app, Ho. simpl. now rewrite app_assoc.
Qed.

(** [main] leaves with 1 after its message, or enters its loop in the
    initial state. *)
Lemma main_start_cases s :
  (exists s', main_start cfg s = Some (inl 1, s', [EvNoAccess]))
  \/ (exists s', main_start cfg s = Some (inr (initial_state cfg), s', [])).
Proof.
  unfold main_start, bind, ioperm.
  destruct (port_ioperm EC_DATA s) as [r1 s1].
  destruct (Z.eqb_spec r1 0); simpl; [|eauto].
  destruct (port_ioperm EC_SC s1) as [r2 s2].
  destruct (Z.eqb_spec r2 0); simpl; eauto.
Qed.

Lemma returns_cycles (n : nat) : forall st,
  wf_state cfg st -> returns (cycles cfg n st) (fun st' _ => wf_state cfg st').
Proof.
  induction n as [|n IH]; intros st Hwf; simpl.
  - now apply returns_ret.
  - eapply returns_bind; [apply returns_cycle, Hwf|].
    intros st1 t1 [Hwf1 _]. apply IH, Hwf1.
Qed.

End Loop.

(** ** A wait that gives up *)

Lemma last_cons (ds : list Z) : forall d a, List.last (d :: ds) a = List.last ds d.
Proof.
  induction ds as [|z ds IH]; intros d a; [reflexivity|].
  change (List.last (d :: z :: ds) a) with (List.last (z :: ds) a).
  now rewrite !IH.
Qed.

Lemma polls_repolls port ds : polls port (repolls port ds) = length ds.
Proof.
  unfold polls, count_events, repolls.
  induction ds as [|d ds IH]; [reflexivity|].
  simpl. rewrite Z.eqb_refl. simpl. now rewrite IH.
Qed.

Lemma sleeps_repolls port ds :
  count_events (is_usleep 1000) (repolls port ds) = length ds.
Proof.
  unfold count_events, repolls.
  induction ds as [|d ds IH]; [reflexivity|]. simpl. now rewrite IH.
Qed.

Lemma errors_repolls port ds : count_events is_wait_error (repolls port ds) = 0%nat.
Proof.
  unfold count_events, repolls.
  induction ds as [|d ds IH]; [reflexivity|]. simpl. now rewrite IH.
Qed.

Lemma timeout_trace_counts port flag value d0 ds :
  polls port (timeout_trace port flag value d0 ds) = S (length ds)
  /\ count_events (is_usleep 1000) (timeout_trace port flag value d0 ds) = length ds
  /\ count_events is_wait_error (timeout_trace port flag value d0 ds) = 1%nat.
Proof.
  unfold timeout_trace, polls.
  rewrite !count_events_app, sleeps_repolls, errors_repolls.
  fold (polls port (repolls port ds)). rewrite polls_repolls.
  unfold count_events. simpl. rewrite Z.eqb_refl. simpl. lia.
Qed.

Section Stuck.

Context {HW : Type} {ports : Ports HW}.
Variables (port flag value : Z).
Hypothesis Hstuck : forall s, flag_of (uint8 (port_inb port s).1) flag <> value.

Lemma inb_stuck s :
  exists d s', inb port s = Some (d, s', [EvInb port d]) /\ flag_of d flag <> value.
Proof using Hstuck.
  unfold inb. specialize (Hstuck s). destruct (port_inb port s) as [v s1].
  exists (uint8 v), s1. auto.
Qed.

Lemma wait_loop_stuck (fuel : nat) : forall data i s,
  0 <= i <= 100 -> (Z.to_nat (101 - i) <= fuel)%nat ->
  flag_of data flag <> value ->
  exists ds s',
    ec_io_wait_loop fuel port flag value data i s
    = Some ((List.last ds data, 101), s', repolls port ds)
    /\ length ds = Z.to_nat (100 - i).
Proof using Hstuck.
  induction fuel as [|fuel IH]; intros data i s Hi Hfuel Hdata; [lia|].
  cbn [ec_io_wait_loop]. fold (flag_of data flag).
  destruct (Z.eqb_spec (flag_of data flag) value) as [E|_]; [contradiction|].
  cbn [negb]. destruct (Z.ltb_spec i 100) as [Hlt|Hge].
  - destruct (inb_stuck (port_usleep 1000 s)) as (d & s1 & Ein & Hd).
    destruct (IH d (i + 1) s1 ltac:(lia) ltac:(lia) Hd) as (ds & s2 & Eloop & Hlen).
    exists (d :: ds), s2. split.
    + unfold bind, usleep. rewrite Ein, Eloop, last_cons. reflexivity.
    + simpl. rewrite Hlen. lia.
  - exists [], s. replace i with 100 by lia. split; reflexivity.
Qed.

Lemma ec_io_wait_stuck :
  returns (ec_io_wait port flag value)
    (fun _ t => exists d0 ds, length ds = 100%nat
                /\ t = timeout_trace port flag value d0 ds).
Proof using Hstuck.
  intros s. destruct (inb_stuck s) as (d0 & s1 & Ein & Hd0).
  destruct (wait_loop_stuck ec_io_wait_fuel d0 0 s1 ltac:(lia)
              ltac:(unfold ec_io_wait_fuel; lia) Hd0) as (ds & s2 & Eloop & Hlen).
  exists tt, s2, (timeout_trace port flag value d0 ds). split; [|eauto].
  unfold ec_io_wait, bind. rewrite Ein, Eloop. reflexivity.
Qed.

End Stuck.

(** ** The properties of the specification *)

(** C1, as amended. In every cycle a duty write occurs if and only if the
    newly computed duty differs from the last duty written, which
    [prev_duty] holds: a cycle that writes sends the byte of the new duty
    last and leaves the new duty in [prev_duty], and [prev_duty] changes
    only in a cycle that writes. When the next cycle computes the same
    duty it performs no write, and the two cycles together perform one
    write when that duty differs from the duty written last before them,
    and none otherwise. *)
Theorem duty_write_iff_changed {HW : Type} {ports : Ports HW} (cfg : config)
    (st : loop_state) :
  wf_state cfg st ->
  returns (cycle cfg st) (fun st1 t1 =>
    exists new_duty,
      temp_to_duty (history_max (temp_history st1)) = Some new_duty
      /\ (duty_writes t1 = 1%nat <-> new_duty <> prev_duty st)
      /\ (duty_writes t1 = 0%nat <-> new_duty = prev_duty st)
      /\ (duty_writes t1 = 1%nat ->
          exists o raw,
            duty_to_raw new_duty = Some raw
            /\ outbs t1 = o ++ [(0x99, EC_SC); (0x01, EC_DATA); (raw, EC_DATA)])
      /\ (prev_duty st1 <> prev_duty st -> duty_writes t1 = 1%nat)
      /\ prev_duty st1 = new_duty
      /\ returns (cycle cfg st1) (fun st2 t2 =>
           temp_to_duty (history_max (temp_history st2)) = Some new_duty ->
           duty_writes t2 = 0%nat
           /\ prev_duty st2 = prev_duty st1
           /\ duty_writes (t1 ++ t2)
              = if new_duty =? prev_duty st then 0%nat else 1%nat)).
Proof.
  intros Hwf.
  eapply returns_weaken; [apply returns_cycle, Hwf|].
  intros st1 t1 (Hwf1 & cur & d & _ & _ & Hd & Hprev & Hw & Hout).
  assert (Hnext : returns (cycle cfg st1) (fun st2 t2 =>
            temp_to_duty (history_max (temp_history st2)) = Some d ->
            duty_writes t2 = 0%nat /\ prev_duty st2 = prev_duty st1)).
  { eapply returns_weaken; [apply returns_cycle, Hwf1|].
    intros st2 t2 (_ & cur2 & d2 & _ & _ & Hd2 & Hprev2 & Hw2 & _) Hsame.
    rewrite Hd2 in Hsame. injection Hsame as ->.
    rewrite Hprev, Z.eqb_refl in Hw2. split; [exact Hw2 | congruence]. }
  exists d. split; [exact Hd|].
  destruct (Z.eqb_spec d (prev_duty st)) as [E|E].
  - split; [split; [rewrite Hw; discriminate | contradiction]|].
    split; [split; [intros _; exact E | intros _; exact Hw]|].
    split; [rewrite Hw; discriminate|].
    split; [intros Hne; congruence|]. split; [exact Hprev|].
    eapply returns_weaken; [exact Hnext|]. intros st2 t2 Hpost Hsame.
    destruct (Hpost Hsame) as [Hw2 Hp2].
    split; [exact Hw2|]. split; [exact Hp2|].
    now rewrite duty_writes_app, Hw, Hw2.
  - split; [split; [intros _; exact E | intros _; exact Hw]|].
    split; [split; [rewrite Hw; discriminate | contradiction]|].
    split; [intros _; exact (Hout E)|].
    split; [intros _; exact Hw|]. split; [exact Hprev|].
    eapply returns_weaken; [exact Hnext|]. intros st2 t2 Hpost Hsame.
    destruct (Hpost Hsame) as [Hw2 Hp2].
    split; [exact Hw2|]. split; [exact Hp2|].
    now rewrite duty_writes_app, Hw, Hw2.
Qed.

Lemma duty_write_iff_changed_witness :
  wf_state source_config (initial_state source_config)
  /\ exists st1 t1,
       cycle (ports := ready_ports 55) source_config (initial_state source_config) tt
       = Some (st1, tt, t1)
       /\ duty_writes t1 = 1%nat.
Proof.
  split; [apply wf_initial_state; reflexivity|].
  destruct (duty_write_iff_changed (ports := ready_ports 55) source_config
              (initial_state source_config)
              (wf_initial_state source_config eq_refl) tt)
    as (st1 & s1 & t1 & E & d & Hd & Hiff & _).
  destruct s1. exists st1, t1. split; [exact E|].
  apply Hiff. destruct (temp_to_duty_range (history_max (temp_history st1))) as (d' & Hd' & Hr).
  rewrite Hd in Hd'. injection Hd' as <-. simpl. lia.
Defined.

(** C1, refuted as stated: on a controller whose registers all read 0 the
    second and the third cycle both compute the duty 10, and the two
    together perform no write, not one. *)
Lemma identical_cycles_write_nothing :
  match cycle (ports := ready_ports 0) source_config (initial_state source_config) tt with
  | Some (st1, s1, t1) =>
      match cycle (ports := ready_ports 0) source_config st1 s1 with
      | Some (st2, s2, t2) =>
          match cycle (ports := ready_ports 0) source_config st2 s2 with
          | Some (st3, s3, t3) =>
              temp_to_duty (history_max (temp_history st2)) = Some 10
              /\ temp_to_duty (history_max (temp_history st3)) = Some 10
              /\ duty_writes t1 = 1%nat
              /\ duty_writes (t2 ++ t3) = 0%nat
              /\ duty_writes (t2 ++ t3) <> 1%nat
          | None => False
          end
      | None => False
      end
  | None => False
  end.
Proof. vm_compute. repeat split; discriminate. Qed.

(** C2. With the limits 40 and 70 degrees and the duties 10 and 100, the
    curve gives 10 at every temperature up to 40 and 100 at every
    temperature from 70 on. *)
Theorem curve_bounds (t : Z) :
  (t <= 40 -> temp_to_duty t = Some 10) /\ (70 <= t -> temp_to_duty t = Some 100).
Proof. split; [apply temp_to_duty_low | apply temp_to_duty_top]. Qed.

Lemma curve_bounds_witness :
  (40 <= 40 /\ temp_to_duty 40 = Some 10) /\ (70 <= 70 /\ temp_to_duty 70 = Some 100).
Proof.
  split; (split; [lia|]).
  - apply (curve_bounds 40). lia.
  - apply (curve_bounds 70). lia.
Defined.

(** C3. The curve never decreases: of two temperatures the higher one gets
    at least the duty of the lower one. *)
Theorem curve_monotone (t1 t2 : Z) :
  t1 < t2 ->
  exists d1 d2, temp_to_duty t1 = Some d1 /\ temp_to_duty t2 = Some d2 /\ d1 <= d2.
Proof. intros Hlt. apply temp_to_duty_mono. lia. Qed.

Lemma curve_monotone_witness :
  54 < 55 /\
  exists d1 d2, temp_to_duty 54 = Some d1 /\ temp_to_duty 55 = Some d2 /\ d1 <= d2.
Proof. split; [lia | apply (curve_monotone 54 55); lia]. Defined.

(** C4, as amended. When the awaited flag never has the desired value, a
    wait reads the status port once and then 100 more times, each time
    after a sleep of 1 ms, 101 reads in all; it prints one warning and
    returns. A register read whose output-buffer-full flag never sets
    goes through such a wait and returns the byte then read from the data
    port, and the control loop runs on, cycle after cycle. *)
Theorem handshake_timeout {HW : Type} {ports : Ports HW} (cfg : config) (st : loop_state)
    (port flag value reg : Z) :
  (forall s, flag_of (uint8 (port_inb port s).1) flag <> value) ->
  wf_state cfg st ->
  returns (ec_io_wait port flag value) (fun _ t =>
    (exists d0 ds, length ds = 100%nat /\ t = timeout_trace port flag value d0 ds)
    /\ polls port t = 101%nat
    /\ count_events (is_usleep 1000) t = 100%nat
    /\ count_events is_wait_error t = 1%nat)
  /\ (port = EC_SC -> flag = OBF -> value = 1 ->
      returns (ec_io_read reg) (fun v t =>
        exists t0 d0 ds, length ds = 100%nat
          /\ t = t0 ++ timeout_trace EC_SC OBF 1 d0 ds ++ [EvInb EC_DATA v]))
  /\ (forall n : nat, returns (cycles cfg n st) (fun st' _ => wf_state cfg st')).
Proof.
  intros Hstuck Hwf. split; [|split].
  - eapply returns_weaken; [apply ec_io_wait_stuck, Hstuck|].
    intros ? t (d0 & ds & Hlen & ->).
    destruct (timeout_trace_counts port flag value d0 ds) as (Hp & Hs & He).
    rewrite Hp, Hs, He, Hlen. eauto 10.
  - intros -> -> ->. unfold ec_io_read.
    eapply returns_bind; [apply returns_ec_io_wait|]. intros ? t1 _.
    eapply returns_bind; [apply returns_outb|]. intros ? t2 _.
    eapply returns_bind; [apply returns_ec_io_wait|]. intros ? t3 _.
    eapply returns_bind; [apply returns_outb|]. intros ? t4 _.
    eapply returns_bind; [apply ec_io_wait_stuck, Hstuck|].
    intros ? t5 (d0 & ds & Hlen & ->).
    eapply returns_weaken; [apply returns_inb|]. intros v t6 [-> _].
    exists (t1 ++ t2 ++ t3 ++ t4), d0, ds. split; [exact Hlen|].
    rewrite <- !app_assoc. reflexivity.
  - intros n. apply returns_cycles, Hwf.
Qed.

Lemma handshake_timeout_witness :
  (forall s : unit, flag_of (uint8 (port_inb (Ports := stuck_ports) EC_SC s).1) OBF <> 1)
  /\ wf_state source_config (initial_state source_config)
  /\ exists t, ec_io_wait (ports := stuck_ports) EC_SC OBF 1 tt = Some (tt, tt, t)
               /\ polls EC_SC t = 101%nat.
Proof.
  assert (Hstuck : forall s : unit,
             flag_of (uint8 (port_inb (Ports := stuck_ports) EC_SC s).1) OBF <> 1)
    by (intros s; vm_compute; discriminate).
  split; [exact Hstuck|]. split; [apply wf_initial_state; reflexivity|].
  destruct (handshake_timeout (ports := stuck_ports) source_config
              (initial_state source_config) EC_SC OBF 1 EC_REG_CPU_TEMP Hstuck
              (wf_initial_state source_config eq_refl)) as [Hwait _].
  destruct (Hwait tt) as ([] & [] & t & E & _ & Hp & _).
  exists t. split; [exact E | exact Hp].
Defined.

(** C4, refuted as stated: on a controller whose output-buffer-full flag
    never sets, the wait for that flag reads the status port 101 times,
    not 100. *)
Lemma wait_polls_101_times :
  match ec_io_wait (ports := stuck_ports) EC_SC OBF 1 tt with
  | Some (_, _, t) =>
      Forall (fun e => match e with
                       | EvInb _ d => flag_of d OBF <> 1
                       | _ => True
                       end) t
      /\ polls EC_SC t = 101%nat
      /\ polls EC_SC t <> 100%nat
      /\ count_events is_wait_error t = 1%nat
  | None => False
  end.
Proof.
  vm_compute. split; [|repeat split; discriminate].
  repeat constructor; discriminate.
Qed.

(** C5. A duty write sanitizes the percentage to the range from 10 to 100
    and sends the byte of the sanitized percentage: for 3 the byte of 10,
    which is 25, and for 150 the byte of 100, which is 255. *)
Theorem clamp_on_write {HW : Type} {ports : Ports HW} (d : Z) :
  returns (ec_write_fan_duty d) (fun _ t =>
    exists raw, duty_to_raw (sanitize_duty d) = Some raw
      /\ outbs t = [(0x99, EC_SC); (0x01, EC_DATA); (raw, EC_DATA)])
  /\ 10 <= sanitize_duty d <= 100
  /\ sanitize_duty d = (if d <? 10 then 10 else if d >? 100 then 100 else d)
  /\ sanitize_duty 3 = 10 /\ duty_to_raw 10 = Some 25
  /\ sanitize_duty 150 = 100 /\ duty_to_raw 100 = Some 255.
Proof.
  split; [|split; [apply sanitize_duty_range|split]].
  - eapply returns_weaken; [apply returns_ec_write_fan_duty|].
    intros ? t (raw & E & _ & Ht). eauto.
  - unfold sanitize_duty. destruct (Z.ltb_spec d 10); [|reflexivity].
    reflexivity.
  - repeat split; vm_compute; reflexivity.
Qed.

(** C6. The first cycle performs a duty write whatever duty it computes,
    that is, whatever the history holds: [prev_duty] starts at -1, and no
    computed duty is -1. *)
Theorem first_cycle_writes {HW : Type} {ports : Ports HW} (cfg : config)
    (st : loop_state) :
  wf_state cfg st ->
  prev_duty st = -1 ->
  prev_duty (initial_state cfg) = -1
  /\ returns (cycle cfg st) (fun st' t =>
       duty_writes t = 1%nat
       /\ exists new_duty o raw,
            temp_to_duty (history_max (temp_history st')) = Some new_duty
            /\ new_duty <> -1
            /\ prev_duty st' = new_duty
            /\ duty_to_raw new_duty = Some raw
            /\ outbs t = o ++ [(0x99, EC_SC); (0x01, EC_DATA); (raw, EC_DATA)]).
Proof.
  intros Hwf Hprev. split; [reflexivity|].
  eapply returns_weaken; [apply returns_cycle, Hwf|].
  intros st' t (_ & cur & d & _ & _ & Hd & Hp & Hw & Hout).
  destruct (temp_to_duty_range (history_max (temp_history st'))) as (d' & Hd' & Hr).
  rewrite Hd in Hd'. injection Hd' as <-.
  rewrite Hprev in Hw, Hout. simpl in Hw, Hout.
  destruct (Z.eqb_spec d (-1)) as [|Hne]; [lia|].
  destruct (Hout Hne) as (o & raw & Eraw & Ho).
  split; [exact Hw|]. exists d, o, raw. repeat split; auto.
Qed.

Lemma first_cycle_writes_witness :
  wf_state source_config (initial_state source_config)
  /\ prev_duty (initial_state source_config) = -1
  /\ exists st' t,
       cycle (ports := ready_ports 55) source_config (initial_state source_config) tt
       = Some (st', tt, t)
       /\ duty_writes t = 1%nat.
Proof.
  split; [apply wf_initial_state; reflexivity|]. split; [reflexivity|].
  destruct (first_cycle_writes (ports := ready_ports 55) source_config
              (initial_state source_config)
              (wf_initial_state source_config eq_refl) eq_refl) as [_ Hrun].
  destruct (Hrun tt) as (st' & [] & t & E & Hw & _).
  exists st', t. split; [exact E | exact Hw].
Defined.

(** C7. In a history of N zeros, pushing a positive sample and then N
    zeros leaves the maximum at that sample after each of the first N-1
    zeros and brings it to 0 with the N-th, which overwrites the sample. *)
Theorem history_aging (N pos spike : Z) :
  0 < N -> 0 <= pos < N -> 0 < spike ->
  exists h1 p1,
    history_push N (replicate (Z.to_nat N) 0) pos spike = Some (h1, p1)
    /\ history_max h1 = spike
    /\ forall k : nat, (k <= Z.to_nat N)%nat ->
         exists hk pk,
           history_push_all N h1 p1 (replicate k 0) = Some (hk, pk)
           /\ history_max hk = if (k <? Z.to_nat N)%nat then spike else 0.
Proof.
  intros HN Hpos Hspike.
  exists (<[Z.to_nat pos := spike]> (replicate (Z.to_nat N) 0)), ((pos + 1) mod N).
  split; [now apply push_spike|]. split; [now apply spiked_max|].
  intros k Hk. destruct (Nat.ltb_spec k (Z.to_nat N)) as [Hlt|Hge].
  - exists (<[Z.to_nat pos := spike]> (replicate (Z.to_nat N) 0)),
           ((pos + 1 + Z.of_nat k) mod N).
    split; [|now apply spiked_max].
    apply (push_zeros_keep N pos spike HN Hpos k 1); lia.
  - replace k with (Z.to_nat N) by lia.
    exists (replicate (Z.to_nat N) 0), ((pos + 1) mod N).
    split; [now apply push_zeros_age | apply history_max_zeros].
Qed.

Lemma history_aging_witness :
  0 < 25 /\ 0 <= 7 < 25 /\ 0 < 93
  /\ exists h1 p1,
       history_push 25 (replicate 25 0) 7 93 = Some (h1, p1)
       /\ history_max h1 = 93
       /\ (exists h p, history_push_all 25 h1 p1 (replicate 24 0) = Some (h, p)
                       /\ history_max h = 93)
       /\ (exists h p, history_push_all 25 h1 p1 (replicate 25 0) = Some (h, p)
                       /\ history_max h = 0).
Proof.
  split; [lia|]. split; [lia|]. split; [lia|].
  destruct (history_aging 25 7 93 ltac:(lia) ltac:(lia) ltac:(lia))
    as (h1 & p1 & E & Hmax & Hall).
  exists h1, p1. split; [exact E|]. split; [exact Hmax|]. split.
  - apply (Hall 24%nat). simpl. lia.
  - apply (Hall 25%nat). simpl. lia.
Defined.

(** C8. At 55 degrees [x] is 0.5 and the duty is 36. *)
Theorem curve_worked_example :
  temp_clamp (temp_scale 55) = S754_finite false 8388608 (-24)
  /\ temp_to_duty 55 = Some 36.
Proof. split; vm_compute; reflexivity. Qed.

(** C9. At every integer temperature, negative ones and ones above 255
    included, the curve gives a duty from 10 to 100; the sanitizing of a
    duty write leaves such a duty as it is, and it is not the -1 that
    [prev_duty] starts with. *)
Theorem duty_in_range (t : Z) :
  exists d, temp_to_duty t = Some d
    /\ 10 <= d <= 100
    /\ sanitize_duty d = d
    /\ d <> -1.
Proof.
  destruct (temp_to_duty_range t) as (d & E & Hr).
  exists d. split; [exact E|]. split; [exact Hr|].
  split; [now apply sanitize_duty_id | lia].
Qed.

(** C10. For the two bytes of the RPM registers the fan speed is 0 when
    the 16-bit value of the bytes is 0, and 2156220 divided by that value
    otherwise: no division by zero is evaluated. *)
Theorem fan_rpms_guarded (raw_rpm_hi raw_rpm_lo : Z) :
  0 <= raw_rpm_hi < 256 -> 0 <= raw_rpm_lo < 256 ->
  let raw_rpm := Z.shiftl raw_rpm_hi 8 + raw_rpm_lo in
  0 <= raw_rpm < 65536
  /\ (raw_rpm = 0 -> fan_rpms_of_raw raw_rpm_hi raw_rpm_lo = Some 0)
  /\ (raw_rpm <> 0 ->
      fan_rpms_of_raw raw_rpm_hi raw_rpm_lo = Some (2156220 / raw_rpm)
      /\ int_div 2156220 raw_rpm = Some (2156220 / raw_rpm)).
Proof.
  intros Hhi Hlo raw_rpm.
  assert (Eraw : raw_rpm = raw_rpm_hi * 256 + raw_rpm_lo).
  { unfold raw_rpm. rewrite Z.shiftl_mul_pow2 by lia. reflexivity. }
  pose proof (fan_rpms_of_raw_spec raw_rpm_hi raw_rpm_lo Hhi Hlo) as Hspec.
  rewrite <- Eraw in Hspec.
  split; [lia|]. split.
  - intros E0. rewrite Hspec, E0. reflexivity.
  - intros Hne. destruct (Z.eqb_spec raw_rpm 0) as [|_]; [contradiction|].
    split; [exact Hspec|].
    unfold int_div. destruct (Z.eqb_spec raw_rpm 0); [contradiction|]. simpl.
    rewrite Z.quot_div_nonneg by lia. reflexivity.
Qed.

Lemma fan_rpms_guarded_witness :
  0 <= 2 < 256 /\ 0 <= 88 < 256
  /\ fan_rpms_of_raw 2 88 = Some 3593
  /\ fan_rpms_of_raw 0 0 = Some 0.
Proof.
  split; [lia|]. split; [lia|]. split.
  - destruct (fan_rpms_guarded 2 88 ltac:(lia) ltac:(lia)) as (_ & _ & Hdiv).
    apply Hdiv. discriminate.
  - destruct (fan_rpms_guarded 0 0 ltac:(lia) ltac:(lia)) as (_ & Hzero & _).
    apply Hzero. reflexivity.
Defined.

(** * Further properties of the code *)

Lemma forallb_seqZ (f : Z -> bool) m n x :
  forallb f (seqZ m n) = true -> m <= x < m + n -> f x = true.
Proof.
  intros H Hx. rewrite forallb_forall in H. apply H.
  apply list_elem_of_In, elem_of_seqZ. exact Hx.
Qed.

(** X1. The curve in integers: the duty is 10 + (c - 40) (c - 34) / 12,
    rounded down, where c is the temperature limited to the range from 40
    to 70. The binary32 arithmetic of [temp_to_duty] gives this value at
    every integer temperature. *)
Theorem temp_to_duty_closed_form (temp : Z) :
  temp_to_duty temp = Some (curve_exact temp).
Proof.
  destruct (Z_le_gt_dec temp 40) as [Hlo|Hlo].
  - rewrite temp_to_duty_low by exact Hlo. unfold curve_exact, clamp_temp.
    replace (Z.max 40 (Z.min temp 70)) with 40 by lia. reflexivity.
  - destruct (Z_le_gt_dec 70 temp) as [Hhi|Hhi].
    + rewrite temp_to_duty_top by exact Hhi. unfold curve_exact, clamp_temp.
      replace (Z.max 40 (Z.min temp 70)) with 70 by lia. reflexivity.
    + assert (H : forallb curve_exact_ok (seqZ 41 29) = true) by (vm_compute; reflexivity).
      apply (forallb_seqZ _ _ _ temp) in H; [|lia].
      unfold curve_exact_ok in H. destruct (temp_to_duty temp) as [d|]; [|discriminate].
      apply Z.eqb_eq in H. now rewrite H.
Qed.

Lemma raw_exact_ok_10_100 d : 10 <= d <= 100 -> raw_exact_ok d = true.
Proof.
  intros Hd.
  assert (H : forallb raw_exact_ok (seqZ 10 91) = true) by (vm_compute; reflexivity).
  apply (forallb_seqZ _ _ _ d) in H; [exact H | lia].
Qed.

Lemma duty_to_raw_exact d : 10 <= d <= 100 -> duty_to_raw d = Some (255 * d / 100).
Proof.
  intros Hd. pose proof (raw_exact_ok_10_100 d Hd) as H. unfold raw_exact_ok in H.
  destruct (duty_to_raw d) as [r|]; [|discriminate].
  apply andb_prop in H as [H _]. apply Z.eqb_eq in H. now rewrite H.
Qed.

(** X2. The byte a duty write sends is 255 * d / 100 rounded down, where d
    is the sanitized percentage; it lies between 25 and 255 and does not
    decrease when the requested percentage increases. *)
Theorem write_sends_exact_byte {HW : Type} {ports : Ports HW} (d : Z) :
  returns (ec_write_fan_duty d) (fun _ t =>
    outbs t = [(0x99, EC_SC); (0x01, EC_DATA); (255 * sanitize_duty d / 100, EC_DATA)])
  /\ 25 <= 255 * sanitize_duty d / 100 <= 255
  /\ forall d', d <= d' -> 255 * sanitize_duty d / 100 <= 255 * sanitize_duty d' / 100.
Proof.
  pose proof (sanitize_duty_range d) as Hr. split; [|split].
  - eapply returns_weaken; [apply returns_ec_write_fan_duty|].
    intros ? t (raw & E & _ & Ht).
    rewrite duty_to_raw_exact in E by exact Hr. injection E as <-. exact Ht.
  - split.
    + apply Z.div_le_lower_bound; lia.
    + apply Z.div_le_upper_bound; lia.
  - intros d' Hle. apply Z.div_le_mono; [lia|].
    apply Z.mul_le_mono_nonneg_l; [lia|].
    unfold sanitize_duty.
    destruct (Z.ltb_spec d 10), (Z.ltb_spec d' 10);
      repeat match goal with |- context [?a >? ?b] => destruct (Z.gtb_spec a b) end; lia.
Qed.

(** X3. When the duty register gives back the byte written for a
    percentage from 10 to 100, [ec_query_fan_duty] computes that
    percentage for the multiples of 20 and one less for all others. *)
Theorem duty_read_back (d : Z) :
  10 <= d <= 100 ->
  exists raw,
    duty_to_raw d = Some raw
    /\ fan_duty_of_raw raw = Some (if d mod 20 =? 0 then d else d - 1).
Proof.
  intros Hd. pose proof (raw_exact_ok_10_100 d Hd) as H. unfold raw_exact_ok in H.
  destruct (duty_to_raw d) as [r|]; [|discriminate]. exists r. split; [reflexivity|].
  apply andb_prop in H as [_ H].
  destruct (fan_duty_of_raw r) as [d'|]; [|discriminate].
  apply Z.eqb_eq in H. now rewrite H.
Qed.

Lemma duty_read_back_witness :
  10 <= 10 <= 100 /\ 10 <= 60 <= 100
  /\ (exists raw, duty_to_raw 10 = Some raw /\ fan_duty_of_raw raw = Some 9)
  /\ (exists raw, duty_to_raw 60 = Some raw /\ fan_duty_of_raw raw = Some 60).
Proof.
  split; [lia|]. split; [lia|]. split.
  - apply (duty_read_back 10). lia.
  - apply (duty_read_back 60). lia.
Defined.

(** X4. For a byte of the duty register [ec_query_fan_duty] computes
    100 * raw / 255 rounded down, a value from 0 to 100. *)
Theorem fan_duty_of_raw_exact (raw_duty : Z) :
  0 <= raw_duty < 256 ->
  fan_duty_of_raw raw_duty = Some (100 * raw_duty / 255)
  /\ 0 <= 100 * raw_duty / 255 <= 100.
Proof.
  intros Hr. split.
  - assert (H : forallb fan_duty_exact_ok (seqZ 0 256) = true) by (vm_compute; reflexivity).
    apply (forallb_seqZ _ _ _ raw_duty) in H; [|lia].
    unfold fan_duty_exact_ok in H. destruct (fan_duty_of_raw raw_duty) as [d|]; [|discriminate].
    apply Z.eqb_eq in H. now rewrite H.
  - split; [apply Z.div_pos; lia | apply Z.div_le_upper_bound; lia].
Qed.

Lemma fan_duty_of_raw_exact_witness :
  0 <= 25 < 256 /\ fan_duty_of_raw 25 = Some 9.
Proof. split; [lia | apply (fan_duty_of_raw_exact 25); lia]. Defined.

(** X5. For two bytes of the RPM registers the fan speed computed is 0
    exactly when both bytes are 0, and from 32 to 2156220 otherwise. *)
Theorem fan_rpms_range (raw_rpm_hi raw_rpm_lo : Z) :
  0 <= raw_rpm_hi < 256 -> 0 <= raw_rpm_lo < 256 ->
  exists rpms,
    fan_rpms_of_raw raw_rpm_hi raw_rpm_lo = Some rpms
    /\ (rpms = 0 <-> raw_rpm_hi = 0 /\ raw_rpm_lo = 0)
    /\ (rpms <> 0 -> 32 <= rpms <= 2156220).
Proof.
  intros Hhi Hlo. rewrite fan_rpms_of_raw_spec by assumption.
  set (raw := raw_rpm_hi * 256 + raw_rpm_lo).
  assert (Hraw : 0 <= raw < 65536) by (unfold raw; lia).
  destruct (Z.eqb_spec raw 0) as [E|E].
  - exists 0. split; [reflexivity|]. split; [|lia].
    split; [intros _; unfold raw in E; lia | reflexivity].
  - exists (2156220 / raw). split; [reflexivity|].
    assert (Hq : 32 <= 2156220 / raw <= 2156220).
    { split; [apply Z.div_le_lower_bound; lia | apply Z.div_le_upper_bound; nia]. }
    split; [|intros _; exact Hq].
    split; [lia | intros [-> ->]; contradiction].
Qed.

Lemma fan_rpms_range_witness :
  0 <= 255 < 256 /\ 0 <= 255 < 256
  /\ exists rpms, fan_rpms_of_raw 255 255 = Some rpms /\ (rpms <> 0 -> 32 <= rpms <= 2156220).
Proof.
  split; [lia|]. split; [lia|].
  destruct (fan_rpms_range 255 255 ltac:(lia) ltac:(lia)) as (rpms & E & _ & Hr).
  exists rpms. split; [exact E | exact Hr].
Defined.

Lemma fold_left_max_attained (h : list Z) : forall a,
  fold_left max h a = a \/ fold_left max h a ∈ h.
Proof.
  induction h as [|x h IH]; intros a; simpl; [now left|].
  destruct (IH (max a x)) as [E|E].
  - rewrite E. unfold max. destruct (Z.gtb_spec a x); [now left | right; left].
  - right. now right.
Qed.

(** X6. The maximum the loop computes over the history is not negative,
    is at least every entry, and is 0 or one of the entries. *)
Theorem history_max_spec (temp_history : list Z) :
  0 <= history_max temp_history
  /\ (forall x, x ∈ temp_history -> x <= history_max temp_history)
  /\ (history_max temp_history = 0 \/ history_max temp_history ∈ temp_history).
Proof.
  unfold history_max. split; [apply fold_left_max_ge|]. split.
  - intros x Hx. now apply fold_left_max_elem.
  - apply fold_left_max_attained.
Qed.

Lemma history_max_ext (h h' : list Z) :
  (forall y, y ∈ h -> y ∈ h') -> history_max h <= history_max h'.
Proof.
  intros Hsub.
  destruct (history_max_spec h) as (_ & _ & [E|E]);
    destruct (history_max_spec h') as (H0 & Hub & _).
  - now rewrite E.
  - apply Hub, Hsub, E.
Qed.

Lemma mod_shift_ne N pos j :
  0 <= pos < N -> 1 <= j < N -> (pos + j) mod N <> pos.
Proof.
  intros Hpos Hj Heq.
  assert (Hd : (pos + j) mod N = (pos + j) - N * ((pos + j) / N))
    by (rewrite Z.mod_eq; lia).
  assert (Hq : (pos + j) / N = 0 \/ (pos + j) / N = 1).
  { assert (0 <= (pos + j) / N) by (apply Z.div_pos; lia).
    assert ((pos + j) / N < 2) by (apply Z.div_lt_upper_bound; lia).
    lia. }
  destruct Hq as [Hq|Hq]; rewrite Hq in Hd; lia.
Qed.

(** X7. After pushing at most as many samples as the history has slots,
    sample number i is in the slot i places after the old index, counted
    around the end of the array; every other slot is unchanged and the
    index has advanced by the number of samples. *)
Theorem history_push_all_lookup (N : Z) (samples : list Z) :
  forall (temp_history : list Z) (pos : Z),
  length temp_history = Z.to_nat N -> 0 <= pos < N ->
  (length samples <= Z.to_nat N)%nat ->
  exists h',
    history_push_all N temp_history pos samples
    = Some (h', (pos + Z.of_nat (length samples)) mod N)
    /\ length h' = Z.to_nat N
    /\ (forall (i : nat) x, samples !! i = Some x ->
          h' !! Z.to_nat ((pos + Z.of_nat i) mod N) = Some x)
    /\ (forall j : nat,
          (forall i : nat, (i < length samples)%nat ->
             Z.to_nat ((pos + Z.of_nat i) mod N) <> j) ->
          h' !! j = temp_history !! j).
Proof.
  induction samples as [|x rest IH]; intros h pos Hlen Hpos Hk.
  - exists h. simpl. rewrite Z.add_0_r, Z.mod_small by lia.
    split; [reflexivity|]. split; [exact Hlen|]. split; [intros i y Hi; inversion Hi | reflexivity].
  - simpl in Hk. cbn [history_push_all].
    rewrite history_push_ok by assumption.
    assert (Hpos1 : 0 <= (pos + 1) mod N < N) by (apply Z.mod_pos_bound; lia).
    destruct (IH (<[Z.to_nat pos := x]> h) ((pos + 1) mod N)
                ltac:(now rewrite length_insert) Hpos1 ltac:(lia))
      as (h' & E & Hlen' & Hin & Hout).
    assert (Hshift : forall i : nat,
              ((pos + 1) mod N + Z.of_nat i) mod N = (pos + Z.of_nat (S i)) mod N).
    { intros i. rewrite Zplus_mod_idemp_l. f_equal. lia. }
    exists h'. split; [|split; [exact Hlen'|split]].
    + rewrite E. f_equal. f_equal. rewrite Hshift. reflexivity.
    + intros [|i] y Hy.
      * simpl in Hy. injection Hy as <-.
        rewrite Z.add_0_r, Z.mod_small by lia.
        rewrite Hout.
        -- apply list_lookup_insert_eq. lia.
        -- intros i Hi. rewrite Hshift.
           pose proof (mod_shift_ne N pos (Z.of_nat (S i)) Hpos ltac:(lia)) as Hne.
           pose proof (Z.mod_pos_bound (pos + Z.of_nat (S i)) N ltac:(lia)). lia.
      * simpl in Hy. rewrite <- Hshift. now apply Hin.
    + intros j Hj. rewrite Hout.
      * apply list_lookup_insert_ne.
        specialize (Hj 0%nat ltac:(simpl; lia)).
        rewrite Z.add_0_r, Z.mod_small in Hj by lia. exact Hj.
      * intros i Hi. rewrite Hshift. apply Hj. simpl. lia.
Qed.

Lemma history_push_all_lookup_witness :
  length [1; 2; 3] = Z.to_nat 3 /\ 0 <= 2 < 3 /\ (length [7; 8] <= Z.to_nat 3)%nat
  /\ exists h', history_push_all 3 [1; 2; 3] 2 [7; 8] = Some (h', 1)
                /\ h' !! 2%nat = Some 7 /\ h' !! 0%nat = Some 8 /\ h' !! 1%nat = Some 2.
Proof.
  split; [reflexivity|]. split; [lia|]. split; [simpl; lia|].
  destruct (history_push_all_lookup 3 [7; 8] [1; 2; 3] 2 eq_refl ltac:(lia) ltac:(simpl; lia))
    as (h' & E & _ & Hin & Hout).
  exists h'. split; [exact E|]. split; [|split].
  - apply (Hin 0%nat 7). reflexivity.
  - apply (Hin 1%nat 8). reflexivity.
  - rewrite (Hout 1%nat); [reflexivity|].
    intros [|[|i]] Hi; simpl in *; try lia; discriminate.
Defined.

(** X8. After as many pushes as the history has slots the index is where
    it was and the history holds the pushed samples and nothing else: its
    maximum is theirs, and the duty is 10 when none of them is above 40. *)
Theorem window_forgets (N : Z) (temp_history samples : list Z) (pos : Z) :
  length temp_history = Z.to_nat N -> 0 <= pos < N ->
  length samples = Z.to_nat N ->
  exists h',
    history_push_all N temp_history pos samples = Some (h', pos)
    /\ (forall y, y ∈ h' <-> y ∈ samples)
    /\ history_max h' = history_max samples
    /\ ((forall y, y ∈ samples -> y <= 40) -> temp_to_duty (history_max h') = Some 10).
Proof.
  intros Hlen Hpos Hk.
  destruct (history_push_all_lookup N samples temp_history pos Hlen Hpos ltac:(lia))
    as (h' & E & Hlen' & Hin & _).
  exists h'.
  assert (Hmem : forall y, y ∈ h' <-> y ∈ samples).
  { intros y. split.
    - intros Hy. apply list_elem_of_lookup in Hy as [j Hj].
      assert (HjN : (j < Z.to_nat N)%nat) by (rewrite <- Hlen'; eapply lookup_lt_Some, Hj).
      set (i := Z.to_nat ((Z.of_nat j - pos) mod N)).
      assert (Hi : 0 <= (Z.of_nat j - pos) mod N < N) by (apply Z.mod_pos_bound; lia).
      destruct (lookup_lt_is_Some_2 samples i ltac:(unfold i; lia)) as [x Hx].
      specialize (Hin i x Hx).
      replace (Z.to_nat ((pos + Z.of_nat i) mod N)) with j in Hin.
      + rewrite Hj in Hin. injection Hin as ->. eapply list_elem_of_lookup_2, Hx.
      + unfold i. rewrite Z2Nat.id by lia. rewrite Zplus_mod_idemp_r.
        replace (pos + (Z.of_nat j - pos)) with (Z.of_nat j) by lia.
        rewrite Z.mod_small by lia. lia.
    - intros Hy. apply list_elem_of_lookup in Hy as [i Hi].
      eapply list_elem_of_lookup_2, Hin, Hi. }
  assert (Hmax : history_max h' = history_max samples).
  { apply Z.le_antisymm; apply history_max_ext; intros y; apply Hmem. }
  split.
  - rewrite E. do 2 f_equal. rewrite Hk, Z2Nat.id by lia.
    replace (pos + N) with (pos + 1 * N) by lia. rewrite Z.mod_add, Z.mod_small; lia.
  - split; [exact Hmem|]. split; [exact Hmax|].
    intros Hcool. apply temp_to_duty_low. rewrite Hmax.
    destruct (history_max_spec samples) as (_ & _ & [->|Hm]); [lia | now apply Hcool].
Qed.

Lemma window_forgets_witness :
  length [90; 90; 90] = Z.to_nat 3 /\ 0 <= 1 < 3 /\ length [30; 35; 20] = Z.to_nat 3
  /\ exists h', history_push_all 3 [90; 90; 90] 1 [30; 35; 20] = Some (h', 1)
                /\ history_max h' = history_max [30; 35; 20]
                /\ temp_to_duty (history_max h') = Some 10.
Proof.
  split; [reflexivity|]. split; [lia|]. split; [reflexivity|].
  destruct (window_forgets 3 [90; 90; 90] [30; 35; 20] 1 eq_refl ltac:(lia) eq_refl)
    as (h' & E & _ & Hmax & Hcool).
  exists h'. split; [exact E|]. split; [exact Hmax|]. apply Hcool.
  intros y Hy. repeat (apply elem_of_cons in Hy as [->|Hy]; [lia|]). inversion Hy.
Defined.

(** X9. While a sample is among the last N pushed, N the number of slots,
    the duty computed from the history is at least the duty of that sample
    alone; a sample of 70 or more keeps it at 100. *)
Theorem hot_sample_holds_duty (N : Z) (temp_history samples : list Z) (pos x : Z) :
  length temp_history = Z.to_nat N -> 0 <= pos < N ->
  (length samples <= Z.to_nat N)%nat -> x ∈ samples ->
  exists h' p' d dx,
    history_push_all N temp_history pos samples = Some (h', p')
    /\ temp_to_duty (history_max h') = Some d
    /\ temp_to_duty x = Some dx
    /\ dx <= d
    /\ (70 <= x -> d = 100).
Proof.
  intros Hlen Hpos Hk Hx.
  destruct (history_push_all_lookup N samples temp_history pos Hlen Hpos Hk)
    as (h' & E & _ & Hin & _).
  apply list_elem_of_lookup in Hx as [i Hi].
  assert (Hmem : x ∈ h') by (eapply list_elem_of_lookup_2, Hin, Hi).
  assert (Hle : x <= history_max h') by (now apply history_max_spec).
  destruct (temp_to_duty_mono x (history_max h') Hle) as (dx & d & Edx & Ed & Hd).
  exists h', ((pos + Z.of_nat (length samples)) mod N), d, dx.
  split; [exact E|]. split; [exact Ed|]. split; [exact Edx|]. split; [exact Hd|].
  intros Hhot. rewrite temp_to_duty_top in Ed by lia. now injection Ed.
Qed.

Lemma hot_sample_holds_duty_witness :
  length [0; 0; 0] = Z.to_nat 3 /\ 0 <= 0 < 3 /\ (length [75; 20; 20] <= Z.to_nat 3)%nat
  /\ 75 ∈ [75; 20; 20]
  /\ exists h' p', history_push_all 3 [0; 0; 0] 0 [75; 20; 20] = Some (h', p')
                   /\ temp_to_duty (history_max h') = Some 100.
Proof.
  split; [reflexivity|]. split; [lia|]. split; [simpl; lia|]. split; [left|].
  destruct (hot_sample_holds_duty 3 [0; 0; 0] [75; 20; 20] 0 75 eq_refl ltac:(lia)
              ltac:(simpl; lia) ltac:(left))
    as (h' & p' & d & dx & E & Ed & _ & _ & Hhot).
  exists h', p'. split; [exact E|]. rewrite Ed, Hhot; [reflexivity | lia].
Defined.

Lemma slept_app t1 t2 : slept (t1 ++ t2) = slept t1 + slept t2.
Proof.
  unfold slept. induction t1 as [|e t1 IH]; [reflexivity|].
  simpl. destruct e; lia.
Qed.

Lemma slept_repolls port ds : slept (repolls port ds) = 1000 * Z.of_nat (length ds).
Proof.
  unfold repolls. induction ds as [|d ds IH]; [reflexivity|].
  cbn [List.flat_map]. rewrite slept_app, IH. cbn [length slept foldr]. lia.
Qed.

Section Wait.

Context {HW : Type} {ports : Ports HW}.
Variables (port flag value : Z).

Lemma wait_loop_shape (fuel : nat) : forall data i s,
  0 <= i <= 100 -> (Z.to_nat (101 - i) <= fuel)%nat ->
  exists ds i' s',
    ec_io_wait_loop fuel port flag value data i s
    = Some ((List.last ds data, i'), s', repolls port ds)
    /\ Z.of_nat (length ds) <= 100 - i
    /\ Forall (fun d => flag_of d flag <> value) (removelast (data :: ds))
    /\ ((flag_of (List.last ds data) flag = value /\ i' = i + Z.of_nat (length ds))
        \/ (Z.of_nat (length ds) = 100 - i /\ i' = 101)).
Proof using Type.
  induction fuel as [|fuel IH]; intros data i s Hi Hfuel; [lia|].
  cbn [ec_io_wait_loop]. fold (flag_of data flag).
  destruct (Z.eqb_spec (flag_of data flag) value) as [E|E]; cbn [negb].
  - exists [], i, s. cbn [List.last length removelast].
    split; [reflexivity|]. split; [simpl; lia|]. split; [constructor|].
    left. split; [exact E | simpl; lia].
  - destruct (Z.ltb_spec i 100) as [Hlt|Hge].
    + unfold bind at 1. unfold usleep at 1.
      destruct (returns_inb port (port_usleep 1000 s)) as (d & s1 & t1 & Ein & -> & _).
      destruct (IH d (i + 1) s1 ltac:(lia) ltac:(lia)) as (ds & i' & s2 & Eloop & Hlen & Hall & Hend).
      exists (d :: ds), i', s2. split.
      { unfold bind. rewrite Ein, Eloop, last_cons. reflexivity. }
      split; [simpl length; lia|]. split.
      { change (removelast (data :: d :: ds)) with (data :: removelast (d :: ds)).
        constructor; assumption. }
      rewrite last_cons. simpl length. destruct Hend as [[H1 H2]|[H1 H2]]; [left | right]; lia.
    + exists [], 101, s. replace i with 100 by lia. cbn [List.last length removelast].
      split; [reflexivity|]. split; [simpl; lia|]. split; [constructor|].
      right. simpl. lia.
Qed.

(** X10. On any hardware a wait reads the port once and then at most 100
    more times, each time after a sleep of 1 ms; every read but the last
    found the flag wrong; when it stops before the 100th the last read
    found the flag right; and it prints its warning exactly when it made
    all 100. *)
Theorem ec_io_wait_shape :
  returns (ec_io_wait port flag value) (fun _ t =>
    exists d0 ds,
      t = wait_trace port flag value d0 ds
      /\ (length ds <= 100)%nat
      /\ Forall (fun d => flag_of d flag <> value) (removelast (d0 :: ds))
      /\ ((length ds < 100)%nat -> flag_of (List.last ds d0) flag = value)
      /\ polls port t = S (length ds)
      /\ slept t = 1000 * Z.of_nat (length ds)
      /\ count_events is_wait_error t = if (length ds <? 100)%nat then 0%nat else 1%nat).
Proof using Type.
  intros s. destruct (returns_inb port s) as (d0 & s1 & t1 & Ein & -> & _).
  destruct (wait_loop_shape ec_io_wait_fuel d0 0 s1 ltac:(lia)
              ltac:(unfold ec_io_wait_fuel; lia)) as (ds & i' & s2 & Eloop & Hlen & Hall & Hend).
  assert (Hi' : (i' >=? 100) = negb (length ds <? 100)%nat).
  { destruct (Nat.ltb_spec (length ds) 100), (Z.geb_spec i' 100); simpl; lia. }
  exists tt, s2, (wait_trace port flag value d0 ds). split.
  - unfold ec_io_wait, bind. rewrite Ein, Eloop. cbn iota beta. rewrite Hi'.
    unfold wait_trace. destruct (length ds <? 100)%nat; reflexivity.
  - exists d0, ds. split; [reflexivity|]. split; [lia|]. split; [exact Hall|].
    split; [intros Hlt; destruct Hend as [[H1 _]|[H1 _]]; [exact H1 | lia]|].
    unfold wait_trace. split; [|split].
    + unfold polls. rewrite !count_events_app. fold (polls port (repolls port ds)).
      rewrite polls_repolls. unfold count_events. simpl. rewrite Z.eqb_refl.
      destruct (length ds <? 100)%nat; simpl; lia.
    + rewrite !slept_app, slept_repolls. destruct (length ds <? 100)%nat; simpl; lia.
    + rewrite !count_events_app, errors_repolls.
      destruct (length ds <? 100)%nat; reflexivity.
Qed.

End Wait.

Lemma countdown_loop (j : nat) : forall (fuel : nat) i,
  0 <= i -> i + Z.of_nat j < 100 -> (Z.to_nat (101 - i) <= fuel)%nat ->
  ec_io_wait_loop (ports := countdown_ports) fuel EC_SC OBF 1 0 i j
  = Some ((1, i + Z.of_nat j + 1), 0%nat, repolls EC_SC (replicate j 0 ++ [1])).
Proof.
  induction j as [|j IH]; intros fuel i Hi Hij Hfuel;
    (destruct fuel as [|fuel]; [lia|]); cbn [ec_io_wait_loop].
  - change (negb (Z.land (Z.shiftr 0 OBF) 1 =? 1)) with true. cbn iota.
    destruct (Z.ltb_spec i 100); [|lia].
    destruct fuel as [|fuel]; [lia|].
    unfold bind, usleep, inb. simpl. change (uint8 1) with 1.
    replace (i + Z.of_nat 0 + 1) with (i + 1) by lia. reflexivity.
  - change (negb (Z.land (Z.shiftr 0 OBF) 1 =? 1)) with true. cbn iota.
    destruct (Z.ltb_spec i 100); [|lia].
    unfold bind at 1. unfold usleep at 1. unfold bind at 1. unfold inb at 1.
    cbn [port_inb countdown_ports port_usleep]. change (EC_SC =? EC_SC) with true.
    cbn iota beta. change (uint8 0) with 0. cbn [Nat.pred].
    rewrite IH by lia. simpl.
    replace (i + Z.of_nat (S j) + 1) with (i + 1 + Z.of_nat j + 1) by lia. reflexivity.
Qed.

(** X11. On a controller whose flag sets after k reads, k at most 100, a
    wait reads k more times after the first, ends with the flag found
    set, and prints its warning if and only if k is 100: a flag found set
    at the last read allowed is reported as an error all the same. *)
Theorem wait_countdown (k : nat) :
  (k <= 100)%nat ->
  exists d0 ds,
    ec_io_wait (ports := countdown_ports) EC_SC OBF 1 k
    = Some (tt, 0%nat, wait_trace EC_SC OBF 1 d0 ds)
    /\ length ds = k
    /\ flag_of (List.last ds d0) OBF = 1
    /\ count_events is_wait_error (wait_trace EC_SC OBF 1 d0 ds)
       = if (k =? 100)%nat then 1%nat else 0%nat.
Proof.
  intros Hk. destruct k as [|j].
  - exists 1, []. repeat split; vm_compute; reflexivity.
  - exists 0, (replicate j 0 ++ [1]).
    assert (Hlen : length (replicate j 0 ++ [1]) = S j)
      by (rewrite length_app, length_replicate; simpl; lia).
    split; [|split; [exact Hlen|split]].
    + unfold ec_io_wait, bind at 1, inb at 1.
      cbn [port_inb countdown_ports]. change (EC_SC =? EC_SC) with true.
      cbn iota beta. change (uint8 0) with 0. cbn [Nat.pred].
      unfold bind. rewrite countdown_loop by (unfold ec_io_wait_fuel; lia).
      unfold wait_trace. rewrite Hlen. cbn iota beta.
      replace (0 + Z.of_nat j + 1 >=? 100) with (negb (S j <? 100)%nat)
        by (destruct (Nat.ltb_spec (S j) 100), (Z.geb_spec (0 + Z.of_nat j + 1) 100); simpl; lia).
      rewrite last_last. destruct (S j <? 100)%nat; reflexivity.
    + rewrite last_last. reflexivity.
    + unfold wait_trace. rewrite !count_events_app, errors_repolls, Hlen.
      destruct (Nat.ltb_spec (S j) 100), (Nat.eqb_spec (S j) 100); simpl; try lia; reflexivity.
Qed.

Lemma wait_countdown_witness :
  (100 <= 100)%nat
  /\ exists d0 ds,
       ec_io_wait (ports := countdown_ports) EC_SC OBF 1 100%nat
       = Some (tt, 0%nat, wait_trace EC_SC OBF 1 d0 ds)
       /\ flag_of (List.last ds d0) OBF = 1
       /\ count_events is_wait_error (wait_trace EC_SC OBF 1 d0 ds) = 1%nat.
Proof.
  split; [lia|].
  destruct (wait_countdown 100 ltac:(lia)) as (d0 & ds & E & _ & Hflag & Herr).
  exists d0, ds. split; [exact E|]. split; [exact Hflag | exact Herr].
Defined.

Lemma bounded_nil : bounded 0 [].
Proof. split; [simpl; lia | reflexivity]. Qed.

Lemma bounded_app B1 B2 t1 t2 :
  bounded B1 t1 -> bounded B2 t2 -> bounded (B1 + B2) (t1 ++ t2).
Proof.
  intros [H1 O1] [H2 O2]. split.
  - rewrite slept_app. lia.
  - rewrite outbs_app, forallb_app, O1, O2. reflexivity.
Qed.

Lemma bounded_weaken B B' t : B <= B' -> bounded B t -> bounded B' t.
Proof. intros Hle [H O]. split; [lia | exact O]. Qed.

Section Bounds.

Context {HW : Type} {ports : Ports HW}.
Variable cfg : config.

Lemma returns_and {A} (m : M HW A) (P Q : A -> list event -> Prop) :
  returns m P -> returns m Q -> returns m (fun a t => P a t /\ Q a t).
Proof using Type.
  intros HP HQ s. destruct (HP s) as (a & s1 & t & E & Hp).
  destruct (HQ s) as (a' & s1' & t' & E' & Hq).
  rewrite E in E'. injection E' as <- <- <-. exists a, s1, t. auto.
Qed.

Lemma wait_bounded port flag value :
  returns (ec_io_wait port flag value) (fun _ t => bounded 100000 t).
Proof using Type.
  eapply returns_weaken;
    [apply returns_and; [apply ec_io_wait_shape | apply returns_ec_io_wait]|].
  intros ? t [(d0 & ds & _ & Hlen & _ & _ & _ & Hs & _) Ho].
  split; [lia | now rewrite Ho].
Qed.

Lemma outb_bounded v p :
  ok_outb (uint8 v, p) = true -> returns (outb v p) (fun _ t => bounded 0 t).
Proof using Type.
  intros Hok. eapply returns_weaken; [apply returns_outb|]. intros ? t ->.
  split; [simpl; lia|]. simpl. now rewrite Hok.
Qed.

Lemma read_bounded reg :
  returns (ec_io_read reg) (fun v t =>
    0 <= v < 256 /\ last t = Some (EvInb EC_DATA v) /\ bounded 300000 t).
Proof using Type.
  unfold ec_io_read.
  eapply returns_bind; [apply wait_bounded|]. intros ? t1 H1.
  eapply returns_bind; [apply outb_bounded; reflexivity|]. intros ? t2 H2.
  eapply returns_bind; [apply wait_bounded|]. intros ? t3 H3.
  eapply returns_bind; [apply outb_bounded; reflexivity|]. intros ? t4 H4.
  eapply returns_bind; [apply wait_bounded|]. intros ? t5 H5.
  eapply returns_weaken; [apply returns_inb|]. intros v t6 [-> Hv].
  split; [exact Hv|]. split.
  - rewrite !app_assoc. apply last_snoc.
  - assert (H6 : bounded 0 [EvInb EC_DATA v]) by (split; [simpl; lia | reflexivity]).
    pose proof (bounded_app _ _ _ _ H1 (bounded_app _ _ _ _ H2 (bounded_app _ _ _ _ H3
                 (bounded_app _ _ _ _ H4 (bounded_app _ _ _ _ H5 H6))))) as Hb.
    eapply bounded_weaken; [|exact Hb]. lia.
Qed.

Lemma do_bounded cmd port value :
  ok_outb (uint8 cmd, EC_SC) = true ->
  returns (ec_io_do cmd port value) (fun _ t => bounded 400000 t).
Proof using Type.
  intros Hcmd. unfold ec_io_do.
  eapply returns_bind; [apply wait_bounded|]. intros ? t1 H1.
  eapply returns_bind; [apply outb_bounded, Hcmd|]. intros ? t2 H2.
  eapply returns_bind; [apply wait_bounded|]. intros ? t3 H3.
  eapply returns_bind; [apply outb_bounded; reflexivity|]. intros ? t4 H4.
  eapply returns_bind; [apply wait_bounded|]. intros ? t5 H5.
  eapply returns_bind; [apply outb_bounded; reflexivity|]. intros ? t6 H6.
  eapply returns_weaken; [apply wait_bounded|]. intros ? t7 H7.
  pose proof (bounded_app _ _ _ _ H1 (bounded_app _ _ _ _ H2 (bounded_app _ _ _ _ H3
               (bounded_app _ _ _ _ H4 (bounded_app _ _ _ _ H5
               (bounded_app _ _ _ _ H6 H7)))))) as Hb.
  eapply bounded_weaken; [|exact Hb]. lia.
Qed.

(** X12. On any hardware a register read writes the read command to the
    command port and then the low byte of the register number to the data
    port, returns the byte it reads last, from the data port, and sleeps
    at most 300 ms; a register write writes the low bytes of command,
    register number and value in this order and sleeps at most 400 ms. *)
Theorem register_access_protocol (reg cmd port value : Z) :
  returns (ec_io_read reg) (fun v t =>
    outbs t = [(EC_SC_READ_CMD, EC_SC); (reg mod 256, EC_DATA)]
    /\ 0 <= v < 256
    /\ last t = Some (EvInb EC_DATA v)
    /\ 0 <= slept t <= 300000)
  /\ returns (ec_io_do cmd port value) (fun _ t =>
       outbs t = [(cmd mod 256, EC_SC); (port mod 256, EC_DATA); (value mod 256, EC_DATA)]
       /\ 0 <= slept t <= 400000).
Proof using Type.
  split.
  - eapply returns_weaken;
      [apply returns_and; [apply returns_ec_io_read | apply read_bounded]|].
    intros v t [[Ho Hv] (_ & Hlast & [Hs _])]. auto.
  - unfold ec_io_do.
    eapply returns_bind; [apply returns_and; [apply returns_ec_io_wait | apply ec_io_wait_shape]|].
    intros ? t1 [O1 (? & ds1 & _ & L1 & _ & _ & _ & S1 & _)].
    eapply returns_bind; [apply returns_outb|]. intros ? t2 ->.
    eapply returns_bind; [apply returns_and; [apply returns_ec_io_wait | apply ec_io_wait_shape]|].
    intros ? t3 [O3 (? & ds3 & _ & L3 & _ & _ & _ & S3 & _)].
    eapply returns_bind; [apply returns_outb|]. intros ? t4 ->.
    eapply returns_bind; [apply returns_and; [apply returns_ec_io_wait | apply ec_io_wait_shape]|].
    intros ? t5 [O5 (? & ds5 & _ & L5 & _ & _ & _ & S5 & _)].
    eapply returns_bind; [apply returns_outb|]. intros ? t6 ->.
    eapply returns_weaken;
      [apply returns_and; [apply returns_ec_io_wait | apply ec_io_wait_shape]|].
    intros ? t7 [O7 (? & ds7 & _ & L7 & _ & _ & _ & S7 & _)].
    split.
    + rewrite !outbs_app, O1, O3, O5, O7. simpl. rewrite uint8_idem. reflexivity.
    + rewrite !slept_app, S1, S3, S5, S7. simpl. lia.
Qed.

End Bounds.

Section CycleBounds.

Context {HW : Type} {ports : Ports HW}.
Variable cfg : config.

Lemma args2_bounded {A B} (a : M HW A) (b : M HW B) Ba Bb :
  returns a (fun _ t => bounded Ba t) ->
  returns b (fun _ t => bounded Bb t) ->
  returns (args2 cfg a b) (fun _ t => bounded (Ba + Bb) t).
Proof using Type.
  intros Ha Hb. unfold args2. destruct (args_right_to_left cfg).
  - eapply returns_bind; [exact Hb|]. intros y t1 H1.
    eapply returns_bind; [exact Ha|]. intros x t2 H2.
    apply returns_ret. rewrite app_nil_r.
    eapply bounded_weaken; [|apply (bounded_app _ _ _ _ H1 H2)]. lia.
  - eapply returns_bind; [exact Ha|]. intros x t1 H1.
    eapply returns_bind; [exact Hb|]. intros y t2 H2.
    apply returns_ret. rewrite app_nil_r. apply (bounded_app _ _ _ _ H1 H2).
Qed.

Lemma read_bounded' reg :
  returns (ec_io_read reg) (fun _ t => bounded 300000 t).
Proof using Type.
  eapply returns_weaken; [apply read_bounded|]. intros v t (_ & _ & Hb). exact Hb.
Qed.

Lemma print_state_bounded temp_cur temp_max new_duty :
  returns (print_state cfg temp_cur temp_max new_duty)
    (fun _ t => bounded (if PRINT_STATE cfg then 900000 else 0) t).
Proof using Type.
  unfold print_state. destruct (PRINT_STATE cfg); [|apply returns_ret, bounded_nil].
  eapply returns_bind.
  - apply (args2_bounded _ _ 600000 300000).
    + unfold ec_query_fan_rpms.
      eapply returns_bind; [apply read_bounded|]. intros hi t1 (Hhi & _ & H1).
      eapply returns_bind; [apply read_bounded|]. intros lo t2 (Hlo & _ & H2).
      eapply returns_lift; [now apply fan_rpms_of_raw_spec|].
      rewrite app_nil_r. apply (bounded_app _ _ _ _ H1 H2).
    + unfold ec_query_fan_duty.
      eapply returns_bind; [apply read_bounded|]. intros raw t1 (Hraw & _ & H1).
      destruct (fan_duty_of_raw_total raw Hraw) as [d E].
      eapply returns_lift; [exact E|]. now rewrite app_nil_r.
  - intros r t1 H1. eapply returns_weaken; [apply returns_emit|]. intros ? t ->.
    assert (H2 : bounded 0 [EvState temp_cur temp_max r.1 r.2 new_duty])
      by (split; [simpl; lia | reflexivity]).
    eapply bounded_weaken; [|apply (bounded_app _ _ _ _ H1 H2)]. lia.
Qed.

(** X13. With a positive rate a cycle sleeps at least the period,
    1000000 / RATE microseconds, and at most 1 s more, or 1.9 s more when
    the state is printed; the only commands it writes to the command port
    are the read command and the fan-duty command. *)
Theorem cycle_sleeps_and_writes (st : loop_state) :
  wf_state cfg st -> 0 < RATE cfg ->
  returns (cycle cfg st) (fun _ t =>
    1000000 / RATE cfg <= slept t
    /\ slept t <= 1000000 / RATE cfg + 1000000
                  + (if PRINT_STATE cfg then 900000 else 0)
    /\ forallb ok_outb (outbs t) = true).
Proof using Type.
  intros Hwf Hrate. pose proof Hwf as [Hlen Hpos]. unfold cycle.
  eapply returns_bind.
  { apply (args2_bounded _ _ 300000 300000); apply read_bounded'. }
  intros tc t1 H1.
  assert (Hpush : exists h, history_push (TEMP_HISTORY_LEN cfg) (temp_history st)
                              (temp_history_pos st) (max tc.1 tc.2) = Some h)
    by (rewrite history_push_ok by assumption; eauto).
  destruct Hpush as [h Eh].
  eapply returns_bind_lift; [exact Eh|].
  destruct (temp_to_duty_range (history_max h.1)) as (d & Ed & Hd).
  eapply returns_bind_lift; [exact Ed|].
  eapply returns_bind; [apply print_state_bounded|]. intros ? t2 H2.
  eapply returns_bind with (P := fun _ t => bounded 400000 t).
  { destruct (negb (d =? prev_duty st)).
    - eapply returns_bind.
      + unfold ec_write_fan_duty.
        destruct (duty_to_raw_byte (sanitize_duty d) (sanitize_duty_range d)) as (raw & E & _).
        eapply returns_bind_lift; [exact E|]. apply do_bounded. reflexivity.
      + intros ? t H. apply returns_ret. now rewrite app_nil_r.
    - apply returns_ret. eapply bounded_weaken; [|apply bounded_nil]. lia. }
  intros ? t3 H3.
  eapply returns_bind_lift; [apply (wf_state_rate cfg st Hwf)|].
  eapply returns_bind; [apply returns_usleep|]. intros ? t4 ->.
  apply returns_ret. rewrite app_nil_r.
  assert (Hq : 1000 * 1000 ÷ RATE cfg = 1000000 / RATE cfg)
    by (rewrite Z.quot_div_nonneg by lia; reflexivity).
  assert (Hq0 : 0 <= 1000000 / RATE cfg) by (apply Z.div_pos; lia).
  destruct H1 as [S1 O1], H2 as [S2 O2], H3 as [S3 O3].
  rewrite !slept_app, !outbs_app, !forallb_app, O1, O2, O3. cbn [slept foldr outbs omap].
  rewrite Hq. destruct (PRINT_STATE cfg); repeat split; simpl; lia.
Qed.


(** X14. After one or more cycles from a state whose history holds bytes,
    the history still holds bytes, [prev_duty] is the duty of the maximum
    of the history, a value from 10 to 100, and no more duty writes were
    done than cycles run. *)
Theorem loop_invariant (n : nat) : forall st,
  wf_state cfg st ->
  Forall (fun x => 0 <= x < 256) (temp_history st) ->
  returns (cycles cfg (S n) st) (fun st' t =>
    wf_state cfg st'
    /\ Forall (fun x => 0 <= x < 256) (temp_history st')
    /\ temp_to_duty (history_max (temp_history st')) = Some (prev_duty st')
    /\ 10 <= prev_duty st' <= 100
    /\ (duty_writes t <= S n)%nat).
Proof using Type.
  assert (Hstep : forall st, wf_state cfg st ->
            Forall (fun x => 0 <= x < 256) (temp_history st) ->
            returns (cycle cfg st) (fun st' t =>
              wf_state cfg st'
              /\ Forall (fun x => 0 <= x < 256) (temp_history st')
              /\ temp_to_duty (history_max (temp_history st')) = Some (prev_duty st')
              /\ 10 <= prev_duty st' <= 100
              /\ (duty_writes t <= 1)%nat)).
  { intros st Hwf Hbytes.
    eapply returns_weaken; [apply returns_cycle, Hwf|].
    intros st' t (Hwf' & cur & d & Hcur & Hpush & Hd & Hprev & Hw & _).
    split; [exact Hwf'|]. split.
    - unfold history_push in Hpush.
      destruct (_ && _); [|discriminate]. injection Hpush as <- _.
      apply Forall_insert; assumption.
    - rewrite Hprev. split; [exact Hd|].
      destruct (temp_to_duty_range (history_max (temp_history st'))) as (d' & Hd' & Hr).
      rewrite Hd in Hd'. injection Hd' as <-. split; [exact Hr|].
      rewrite Hw. destruct (d =? prev_duty st); lia. }
  induction n as [|n IH]; intros st Hwf Hbytes.
  - cbn [cycles]. eapply returns_bind; [apply Hstep; assumption|].
    intros st1 t1 H1. apply returns_ret. now rewrite app_nil_r.
  - change (cycles cfg (S (S n)) st) with (bind (cycle cfg st) (cycles cfg (S n))).
    eapply returns_bind; [apply Hstep; assumption|].
    intros st1 t1 (Hwf1 & Hb1 & _ & _ & Hw1).
    eapply returns_weaken; [apply IH; assumption|].
    intros st2 t2 (Hwf2 & Hb2 & Hd2 & Hr2 & Hw2).
    rewrite duty_writes_app.
    split; [exact Hwf2|]. split; [exact Hb2|]. split; [exact Hd2|]. split; [exact Hr2 | lia].
Qed.


(** X15. When [ioperm] fails for the data port, or succeeds for it and
    fails for the command port, [main] prints its message and returns 1
    without any port access or sleep, in the first case without asking
    for the command port; when both succeed it runs its loop from the
    initial state. *)
Theorem main_startup (n : nat) (s : HW) :
  let r1 := port_ioperm EC_DATA s in
  let r2 := port_ioperm EC_SC r1.2 in
  (r1.1 <> 0 -> main cfg n s = Some (inl 1, r1.2, [EvNoAccess]))
  /\ (r1.1 = 0 -> r2.1 <> 0 -> main cfg n s = Some (inl 1, r2.2, [EvNoAccess]))
  /\ (r1.1 = 0 -> r2.1 = 0 ->
      main cfg n s
      = match cycles cfg n (initial_state cfg) r2.2 with
        | Some (st, s', t) => Some (inr st, s', t)
        | None => None
        end).
Proof using Type.
  intros r1 r2. subst r2 r1. unfold main, main_start, bind, ioperm.
  destruct (port_ioperm EC_DATA s) as [c1 s1]. cbn [fst snd].
  destruct (port_ioperm EC_SC s1) as [c2 s2] eqn:E2. cbn [fst snd].
  split; [|split].
  - intros H1. destruct (Z.eqb_spec c1 0); [contradiction|]. reflexivity.
  - intros -> H2. simpl. rewrite E2.
    destruct (Z.eqb_spec c2 0); [contradiction|]. reflexivity.
  - intros -> ->. simpl. rewrite E2. simpl.
    destruct (cycles cfg n (initial_state cfg) s2) as [[[st s'] t]|]; [|reflexivity].
    now rewrite app_nil_r.
Qed.

End CycleBounds.

Lemma cycle_sleeps_and_writes_witness :
  wf_state make_config (initial_state make_config) /\ 0 < RATE make_config
  /\ exists st' t,
       cycle (ports := stuck_ports) make_config (initial_state make_config) tt
       = Some (st', tt, t)
       /\ 200000 <= slept t <= 1200000.
Proof.
  split; [apply wf_initial_state; reflexivity|]. split; [reflexivity|].
  destruct (cycle_sleeps_and_writes (ports := stuck_ports) make_config
              (initial_state make_config)
              (wf_initial_state make_config eq_refl) eq_refl tt)
    as (st' & [] & t & E & Hlo & Hhi & _).
  exists st', t. split; [exact E|]. split; [exact Hlo | exact Hhi].
Defined.

Lemma loop_invariant_witness :
  wf_state source_config (initial_state source_config)
  /\ Forall (fun x => 0 <= x < 256) (temp_history (initial_state source_config))
  /\ exists st' t,
       cycles (ports := ready_ports 61) source_config 2 (initial_state source_config) tt
       = Some (st', tt, t)
       /\ temp_to_duty (history_max (temp_history st')) = Some (prev_duty st').
Proof.
  assert (Hb : Forall (fun x => 0 <= x < 256) (temp_history (initial_state source_config)))
    by (repeat constructor; lia).
  split; [apply wf_initial_state; reflexivity|]. split; [exact Hb|].
  destruct (loop_invariant (ports := ready_ports 61) source_config 1 (initial_state source_config)
              (wf_initial_state source_config eq_refl) Hb tt)
    as (st' & [] & t & E & _ & _ & Hd & _).
  exists st', t. split; [exact E | exact Hd].
Defined.

Lemma main_startup_witness :
  (port_ioperm (Ports := no_access_ports) EC_DATA tt).1 <> 0
  /\ main (ports := no_access_ports) source_config 5 tt = Some (inl 1, tt, [EvNoAccess])
  /\ (port_ioperm (Ports := ready_ports 50) EC_DATA tt).1 = 0
  /\ (port_ioperm (Ports := ready_ports 50) EC_SC tt).1 = 0
  /\ main (ports := ready_ports 50) source_config 0 tt
     = Some (inr (initial_state source_config), tt, []).
Proof.
  split; [discriminate|]. split.
  - destruct (main_startup (ports := no_access_ports) source_config 5 tt) as (Hno & _ & _).
    apply Hno. discriminate.
  - split; [reflexivity|]. split; [reflexivity|].
    destruct (main_startup (ports := ready_ports 50) source_config 0 tt) as (_ & _ & Hgo).
    apply Hgo; reflexivity.
Defined.
